(** * SimpleSMBSpider: a shallow embedding of [simplesmdspider.py]

    The script sweeps hosts x usernames x passwords, logs into each host
    over SMB, lists its shares and mirrors every share under
    [output/<host>/<share>/].

    The embedding follows the source function by function.  Python strings
    are [string]s, the path helpers of [posixpath] are written out, and
    every call that leaves the process (the SMB connection, [os.makedirs],
    [open], [print]) is an event of a trace.  What the outside world
    answers is a parameter: a [World] gives, for the history of events so
    far and the arguments of a call, the value returned or the exception
    raised. *)

From Stdlib Require Import Strings.String Strings.Ascii Strings.Byte List Bool Arith Lia.
Import ListNotations.
Local Open Scope string_scope.
Local Open Scope list_scope.

(** ** Python string operations used by the script *)

Module PyStr.

Definition sep : ascii := "/"%char.
Definition backslash : ascii := "\"%char.

(** [s.startswith('/')] *)
Definition startswith_sep (s : string) : bool :=
  match s with
  | String c _ => Ascii.eqb c sep
  | EmptyString => false
  end.

(** [s.endswith('/')] *)
Fixpoint endswith_sep (s : string) : bool :=
  match s with
  | EmptyString => false
  | String c s' =>
      match s' with
      | EmptyString => Ascii.eqb c sep
      | String _ _ => endswith_sep s'
      end
  end.

(** [s.replace("\\", "/")] *)
Fixpoint replace_backslash (s : string) : string :=
  match s with
  | EmptyString => EmptyString
  | String c s' =>
      String (if Ascii.eqb c backslash then sep else c) (replace_backslash s')
  end.

(** [s.lstrip('\\')] *)
Fixpoint lstrip_backslash (s : string) : string :=
  match s with
  | EmptyString => EmptyString
  | String c s' => if Ascii.eqb c backslash then lstrip_backslash s' else s
  end.

(** [s[:-1]] *)
Fixpoint strip_last (s : string) : string :=
  match s with
  | EmptyString => EmptyString
  | String c s' =>
      match s' with
      | EmptyString => EmptyString
      | String _ _ => String c (strip_last s')
      end
  end.

(** ['/' in s] *)
Fixpoint has_sep (s : string) : bool :=
  match s with
  | EmptyString => false
  | String c s' => Ascii.eqb c sep || has_sep s'
  end.

(** ['\\' in s] *)
Fixpoint has_backslash (s : string) : bool :=
  match s with
  | EmptyString => false
  | String c s' => Ascii.eqb c backslash || has_backslash s'
  end.

(** [s == '/' * len(s)] *)
Fixpoint all_sep (s : string) : bool :=
  match s with
  | EmptyString => true
  | String c s' => Ascii.eqb c sep && all_sep s'
  end.

(** [s.rstrip('/')] *)
Fixpoint rstrip_sep (s : string) : string :=
  match s with
  | EmptyString => EmptyString
  | String c s' => if all_sep s then EmptyString else String c (rstrip_sep s')
  end.

(** [s.split('/')] *)
Fixpoint split_sep (s : string) : list string :=
  match s with
  | EmptyString => [EmptyString]
  | String c s' =>
      if Ascii.eqb c sep then EmptyString :: split_sep s'
      else match split_sep s' with
           | x :: r => String c x :: r
           | [] => [String c EmptyString]
           end
  end.

(** ["//".join(names)] *)
Fixpoint join_with (glue : string) (names : list string) : string :=
  match names with
  | [] => EmptyString
  | [n] => n
  | n :: r => n ++ glue ++ join_with glue r
  end.

End PyStr.
Import PyStr.

(** ** The two [posixpath] functions the script calls

    The script starts with [#!/usr/bin/python3], so [os.path] is
    [posixpath]. *)

Module PosixPath.

(** [os.path.join(a, b)]: an absolute [b] discards [a]; otherwise the
    parts are glued, with a separator unless [a] is empty or already ends
    with one. *)
Definition join (a b : string) : string :=
  if startswith_sep b then b
  else if (a =? "") || endswith_sep a then a ++ b
  else a ++ "/" ++ b.

(** [p[: p.rfind('/') + 1]] *)
Fixpoint head_to_last_sep (p : string) : string :=
  match p with
  | EmptyString => EmptyString
  | String c p' => if has_sep p then String c (head_to_last_sep p') else EmptyString
  end.

(** [os.path.dirname(p)] *)
Definition dirname (p : string) : string :=
  let head := head_to_last_sep p in
  if negb (head =? "") && negb (all_sep head) then rstrip_sep head else head.

(** The directory names a path walks through, as the file system reads
    it: empty components (doubled or trailing separators) count for
    nothing. *)
Definition components (p : string) : list string :=
  filter (fun c => negb (c =? "")) (split_sep p).

(** Walking [cs] from some directory never climbs above that directory. *)
Fixpoint stays_below (depth : nat) (cs : list string) : bool :=
  match cs with
  | [] => true
  | c :: r =>
      if c =? "." then stays_below depth r
      else if c =? ".." then
             match depth with
             | O => false
             | S d => stays_below d r
             end
      else stays_below (S depth) r
  end.

Fixpoint strip_prefix (pre l : list string) : option (list string) :=
  match pre, l with
  | [], _ => Some l
  | a :: pre', b :: l' => if a =? b then strip_prefix pre' l' else None
  | _ :: _, [] => None
  end.

(** [p] names [root] or something below it. *)
Definition descendant_of (root p : string) : bool :=
  Bool.eqb (startswith_sep root) (startswith_sep p) &&
  match strip_prefix (components root) (components p) with
  | Some rest => stays_below 0 rest
  | None => false
  end.

End PosixPath.

(** ** Path mapping (lines 65, 71, 91, 92 and 97 of the script) *)

(** [filename in ['.', '..']] *)
Definition is_dot (filename : string) : bool :=
  (filename =? ".") || (filename =? "..").

(** [os.path.join(remote_path, filename).replace("\\", "/")] *)
Definition full_remote_path (remote_path filename : string) : string :=
  replace_backslash (PosixPath.join remote_path filename).

(** [os.path.join(local_base_path, full_remote_path.lstrip('\\'))] *)
Definition local_path (local_base_path full : string) : string :=
  PosixPath.join local_base_path (lstrip_backslash full).

(** The [remote_path] argument of the recursive call for a directory. *)
Definition child_remote_path (remote_path filename : string) : string :=
  full_remote_path remote_path filename ++ "\".

(** [os.path.join('output', host)] *)
Definition host_directory (host : string) : string :=
  PosixPath.join "output" host.

(** [os.path.join(host_directory, share)] *)
Definition share_directory (host share : string) : string :=
  PosixPath.join (host_directory host) share.

(** The [remote_path] the walker holds after descending from the share
    root through the directories [dirs], outermost first. *)
Definition remote_path_of (dirs : list string) : string :=
  fold_left child_remote_path dirs "".

(** The local path of the entry [filename] found after descending through
    [dirs] in [share] of [host]. *)
Definition entity_local_path (host share : string) (dirs : list string)
    (filename : string) : string :=
  local_path (share_directory host share)
             (full_remote_path (remote_path_of dirs) filename).

(** [a] as a prefix for what [os.path.join] appends to it. *)
Definition dir_prefix (a : string) : string :=
  if (a =? "") || endswith_sep a then a else a ++ "/".

(** A name without separators of either kind, and not empty. *)
Definition plain_name (s : string) : bool :=
  negb (s =? "") && negb (has_sep s) && negb (has_backslash s).

(** A plain name that the walker does not skip. *)
Definition entry_name_ok (s : string) : bool :=
  plain_name s && negb (is_dot s).

(** ** Values exchanged with the outside world *)

(** The text of a Python exception, as [{e}] prints it. *)
Definition exn := string.

(** What a call into a library gives back: a value, or an exception. *)
Inductive result (A : Type) : Type :=
| Ok (a : A)
| Err (e : exn).
Arguments Ok {A} a.
Arguments Err {A} e.

(** An item of [listShares()]; the script reads only [shi1_netname]. *)
Record ShareInfo : Type := { shi1_netname : string }.

(** An item of [listPath()]; the script calls [get_longname()] and
    [is_directory()] on it. *)
Record SharedFile : Type := { get_longname : string; is_directory : bool }.

(** The object [SMBConnection(host, host, timeout=5)] returns. *)
Record SMBConnection : Type := { remote_host : string }.

(** The lines the script prints, one constructor per [print]. *)
Inductive message : Type :=
| MsgErrorListingShares (e : exn)                          (* line 18 *)
| MsgErrorListingFiles (share_name : string) (e : exn)     (* line 30 *)
| MsgDownloaded (remote_path local_path : string)          (* line 44 *)
| MsgErrorDownloading (remote_path : string) (e : exn)     (* line 46 *)
| MsgNoShares (host username : string)                     (* line 61 *)
| MsgListingFiles (share host : string)                    (* line 70 *)
| MsgErrorConnecting (host username : string) (e : exn)    (* line 79 *)
| MsgTrying (host username : string).                      (* line 125 *)

(** The text of each line. *)
Definition render (m : message) : string :=
  match m with
  | MsgErrorListingShares e => "Error listing shares: " ++ e
  | MsgErrorListingFiles s e => "Error listing files in share " ++ s ++ ": " ++ e
  | MsgDownloaded r l => "Downloaded: " ++ r ++ " to " ++ l
  | MsgErrorDownloading r e => "Error downloading file " ++ r ++ ": " ++ e
  | MsgNoShares h u => "No shares found on host " ++ h ++ " with user " ++ u ++ "."
  | MsgListingFiles s h => "Listing files in share '" ++ s ++ "' on host '" ++ h ++ "':"
  | MsgErrorConnecting h u e =>
      "Error connecting to host " ++ h ++ " with user " ++ u ++ ": " ++ e
  | MsgTrying h u => "Trying host " ++ h ++ " with user " ++ u ++ "..."
  end.

(** Everything the script does that is visible from outside.  Each call
    carries its arguments and what it gave back.  [EvAttempt] is not a call:
    it marks the entry into [spider_smb_shares] with its three arguments. *)
Inductive event : Type :=
| EvAttempt (host username password : string)
| EvPrint (m : message)
| EvConnect (host : string) (r : result unit)
| EvLogin (host username password : string) (r : result unit)
| EvListShares (host : string) (r : result (list ShareInfo))
| EvListPath (host share pattern : string) (r : result (list SharedFile))
| EvGetFile (host share path : string) (r : result unit)
| EvLogoff (host : string) (r : result unit)
| EvMakedirs (path : string) (r : result unit)
| EvOpen (path : string) (r : result unit)
| EvWrite (path : string) (data : list byte).

Definition history := list event.

(** The outside world: the SMB servers and the local file system.  Every
    answer may depend on all that happened before. *)
Record World : Type := {
  smb_connect : history -> string -> result unit;
  smb_login : history -> string -> string -> string -> result unit;
  smb_listShares : history -> string -> result (list ShareInfo);
  smb_listPath : history -> string -> string -> string -> result (list SharedFile);
  (* the chunks handed to the callback, then the end of the call *)
  smb_getFile : history -> string -> string -> string -> list (list byte) * result unit;
  smb_logoff : history -> string -> result unit;
  os_makedirs : history -> string -> result unit;
  os_open_wb : history -> string -> result unit
}.

(** ** The monad of the script: history in, outcome and new events out *)

(** How a piece of code ends: normally, by an exception, or not at all.
    The script sets no bound on how deep [spider_files] nests, but the
    interpreter does: its recursion limit ends every nesting with a
    [RecursionError].  [spider_files] below takes the nesting left as an
    argument, and no function of the script ends in [Diverged]. *)
Inductive outcome (A : Type) : Type :=
| Done (a : A)
| Raised (e : exn)
| Diverged.
Arguments Done {A} a.
Arguments Raised {A} e.
Arguments Diverged {A}.

Definition M (A : Type) : Type := history -> outcome A * list event.

Definition ret {A} (a : A) : M A := fun _ => (Done a, []).

Definition bind {A B} (m : M A) (k : A -> M B) : M B :=
  fun h =>
    match m h with
    | (Done a, t1) => let (o, t2) := k a (h ++ t1) in (o, t1 ++ t2)
    | (Raised e, t1) => (Raised e, t1)
    | (Diverged, t1) => (Diverged, t1)
    end.

Declare Scope spider_scope.
Delimit Scope spider_scope with spider.
Notation "x <- m ;; k" := (bind m (fun x => k))
  (at level 61, m at next level, right associativity) : spider_scope.
Notation "m ;; k" := (bind m (fun _ => k))
  (at level 61, right associativity) : spider_scope.
Local Open Scope spider_scope.

(** [raise] *)
Definition raise {A} (e : exn) : M A := fun _ => (Raised e, []).

(** A run that does not end. *)
Definition diverge {A} : M A := fun _ => (Diverged, []).

(** [try: body / except Exception as e: handler] *)
Definition try_except {A} (body : M A) (handler : exn -> M A) : M A :=
  fun h =>
    match body h with
    | (Raised e, t1) => let (o, t2) := handler e (h ++ t1) in (o, t1 ++ t2)
    | r => r
    end.

(** [for x in xs: body] *)
Fixpoint for_each {A} (xs : list A) (body : A -> M unit) : M unit :=
  match xs with
  | [] => ret tt
  | x :: rest => body x ;; for_each rest body
  end.

Definition emit (ev : event) : M unit := fun _ => (Done tt, [ev]).

(** A call answered by the world: the event records the answer, and an
    exception is raised in the caller. *)
Definition call {A} (answer : history -> result A) (ev : result A -> event) : M A :=
  fun h =>
    match answer h with
    | Ok a => (Done a, [ev (Ok a)])
    | Err e => (Raised e, [ev (Err e)])
    end.

Definition print (m : message) : M unit := emit (EvPrint m).

Section Calls.
Variable w : World.

(** [SMBConnection(host, host, timeout=5)] *)
Definition SMBConnection_new (host : string) : M SMBConnection :=
  call (fun h => smb_connect w h host) (EvConnect host) ;;
  ret {| remote_host := host |}.

Definition login (c : SMBConnection) (username password : string) : M unit :=
  call (fun h => smb_login w h (remote_host c) username password)
       (EvLogin (remote_host c) username password).

Definition listShares (c : SMBConnection) : M (list ShareInfo) :=
  call (fun h => smb_listShares w h (remote_host c)) (EvListShares (remote_host c)).

Definition listPath (c : SMBConnection) (share pattern : string)
  : M (list SharedFile) :=
  call (fun h => smb_listPath w h (remote_host c) share pattern)
       (EvListPath (remote_host c) share pattern).

(** [getFile(share, path, file_handle.write)]: every chunk the server
    delivers is written to [local] before the call returns or raises.  The
    trace has the call first, with how it ended, then the writes it made. *)
Definition getFile (c : SMBConnection) (share path local : string) : M unit :=
  fun h =>
    let (chunks, r) := smb_getFile w h (remote_host c) share path in
    (match r with Ok _ => Done tt | Err e => Raised e end,
     EvGetFile (remote_host c) share path r :: map (EvWrite local) chunks).

Definition logoff (c : SMBConnection) : M unit :=
  call (fun h => smb_logoff w h (remote_host c)) (EvLogoff (remote_host c)).

(** [os.makedirs(path, exist_ok=True)] *)
Definition makedirs (path : string) : M unit :=
  call (fun h => os_makedirs w h path) (EvMakedirs path).

(** [open(path, 'wb')] *)
Definition open_wb (path : string) : M unit :=
  call (fun h => os_open_wb w h path) (EvOpen path).

(** ** The functions of the script *)

(** Lines 9-19. *)
Definition list_shares (smb_connection : SMBConnection) : M (list string) :=
  try_except
    (shares <- listShares smb_connection ;;
     ret (map (fun share => strip_last (shi1_netname share)) shares))
    (fun e => print (MsgErrorListingShares e) ;; ret []).

(** Lines 21-31. *)
Definition list_files (smb_connection : SMBConnection)
    (share_name base_path : string) : M (list SharedFile) :=
  try_except
    (listPath smb_connection share_name (base_path ++ "*")%string)
    (fun e => print (MsgErrorListingFiles share_name e) ;; ret []).

(** Lines 33-46. *)
Definition download_file (smb_connection : SMBConnection)
    (share_name remote_path local_path : string) : M unit :=
  try_except
    (makedirs (PosixPath.dirname local_path) ;;
     open_wb local_path ;;
     getFile smb_connection share_name remote_path local_path ;;
     print (MsgDownloaded remote_path local_path))
    (fun e => print (MsgErrorDownloading remote_path e)).

(** The body of the loop of [spider_files] (lines 87-100); [recurse] is
    [spider_files] itself. *)
Definition spider_entry
    (recurse : SMBConnection -> string -> string -> string -> M unit)
    (smb_connection : SMBConnection)
    (share_name remote_path local_base_path : string) (file : SharedFile)
  : M unit :=
  let filename := get_longname file in
  if is_dot filename then ret tt
  else
    let full := full_remote_path remote_path filename in
    let local := local_path local_base_path full in
    if is_directory file then
      makedirs local ;;
      recurse smb_connection share_name (full ++ "\")%string local_base_path
    else
      download_file smb_connection share_name full local.

(** The text of the [RecursionError] the interpreter raises. *)
Definition recursion_error : exn := "maximum recursion depth exceeded".

(** [list_files] (lines 21-31) when the interpreter has no nesting left
    for [listPath]: the call raises [RecursionError], which is an
    [Exception], so line 29 catches it like any listing failure. *)
Definition list_files_at_limit (smb_connection : SMBConnection)
    (share_name base_path : string) : M (list SharedFile) :=
  try_except
    (call (fun _ => Err recursion_error)
          (EvListPath (remote_host smb_connection) share_name
                      (base_path ++ "*")%string))
    (fun e => print (MsgErrorListingFiles share_name e) ;; ret []).

(** Lines 81-100.  [fuel] is the number of nested calls of [spider_files]
    the interpreter's recursion limit still allows below this one.  Each
    directory entered nests one call deeper.  Every level starts with
    [list_files], and [listPath] nests further inside the library than the
    script does by itself; the limit is taken to be met there, inside the
    [try] of [list_files]: the listing of that level fails, the list is
    empty and the loop has nothing to go through.  On every run that stays
    within the nesting allowed this is lines 81-100 as written. *)
Fixpoint spider_files (fuel : nat) (smb_connection : SMBConnection)
    (share_name remote_path local_base_path : string) : M unit :=
  match fuel with
  | O => list_files_at_limit smb_connection share_name remote_path ;; ret tt
  | S fuel' =>
      files <- list_files smb_connection share_name remote_path ;;
      for_each files
        (spider_entry (spider_files fuel') smb_connection
                      share_name remote_path local_base_path)
  end.

(** The body of the loop over shares (lines 70-75). *)
Definition spider_share (fuel : nat) (smb_connection : SMBConnection)
    (host host_dir share : string) : M unit :=
  print (MsgListingFiles share host) ;;
  let share_dir := PosixPath.join host_dir share in
  makedirs share_dir ;;
  spider_files fuel smb_connection share "" share_dir.

(** Lines 60-77: what [spider_smb_shares] does once it has the share
    names.  With no share it prints so and returns, before the [logoff]. *)
Definition spider_listed_shares (fuel : nat) (smb_connection : SMBConnection)
    (host username : string) (shares : list string) : M unit :=
  match shares with
  | [] => print (MsgNoShares host username)
  | _ :: _ =>
      let host_dir := PosixPath.join "output" host in
      makedirs host_dir ;;
      for_each shares (spider_share fuel smb_connection host host_dir) ;;
      logoff smb_connection
  end.

(** Lines 48-79. *)
Definition spider_smb_shares (fuel : nat) (host username password : string)
  : M unit :=
  emit (EvAttempt host username password) ;;
  try_except
    (smb_connection <- SMBConnection_new host ;;
     login smb_connection username password ;;
     shares <- list_shares smb_connection ;;
     spider_listed_shares fuel smb_connection host username shares)
    (fun e => print (MsgErrorConnecting host username e)).

(** [itertools.product] over a list of pools, as the Python documentation
    defines it:
    [result = [[]]], then for each pool
    [result = [x+[y] for x in result for y in pool]]. *)
Definition product {A} (pools : list (list A)) : list (list A) :=
  fold_left
    (fun result pool => flat_map (fun x => map (fun y => x ++ [y]) pool) result)
    pools [[]].

(** The body of the loop of [main] (lines 124-126).  Unpacking a tuple
    that has not three items raises [ValueError]. *)
Definition try_triple (fuel : nat) (t : list string) : M unit :=
  match t with
  | [host; username; password] =>
      print (MsgTrying host username) ;;
      spider_smb_shares fuel host username password
  | _ => raise "ValueError"
  end.

(** Lines 124-126, on the three lists read from the input files. *)
Definition main (fuel : nat) (hosts usernames passwords : list string) : M unit :=
  for_each (product [hosts; usernames; passwords]) (try_triple fuel).

End Calls.

(** ** Reading a trace *)

(** The triples [spider_smb_shares] was entered with, in order. *)
Definition attempts (tr : list event) : list (string * string * string) :=
  flat_map (fun ev => match ev with
                      | EvAttempt h u p => [(h, u, p)]
                      | _ => []
                      end) tr.

(** A call on the SMB connection. *)
Definition is_remote_call (ev : event) : bool :=
  match ev with
  | EvConnect _ _ | EvLogin _ _ _ _ | EvListShares _ _
  | EvListPath _ _ _ _ | EvGetFile _ _ _ _ | EvLogoff _ _ => true
  | _ => false
  end.

(** Something done to the local file system. *)
Definition is_local_write (ev : event) : bool :=
  match ev with
  | EvMakedirs _ _ | EvOpen _ _ | EvWrite _ _ => true
  | _ => false
  end.

Definition is_logoff (ev : event) : bool :=
  match ev with
  | EvLogoff _ _ => true
  | _ => false
  end.

Definition is_error_message (m : message) : bool :=
  match m with
  | MsgErrorListingShares _ | MsgErrorListingFiles _ _
  | MsgErrorDownloading _ _ | MsgErrorConnecting _ _ _ => true
  | _ => false
  end.

Definition is_error_print (ev : event) : bool :=
  match ev with
  | EvPrint m => is_error_message m
  | _ => false
  end.

(** The patterns handed to [listPath], in order: one per directory the
    walker entered. *)
Definition listed (tr : list event) : list string :=
  flat_map (fun ev => match ev with
                      | EvListPath _ _ pattern _ => [pattern]
                      | _ => []
                      end) tr.

(** The share name an event was made with, when it has one. *)
Definition share_used (ev : event) : option string :=
  match ev with
  | EvListPath _ share _ _ => Some share
  | EvGetFile _ share _ _ => Some share
  | EvPrint (MsgListingFiles share _) => Some share
  | _ => None
  end.

(** The files the script announced as downloaded. *)
Definition announced (tr : list event) : list string :=
  flat_map (fun ev => match ev with
                      | EvPrint (MsgDownloaded r _) => [r]
                      | _ => []
                      end) tr.

(** ** Nested loops, as the specification words the enumeration

    Host outermost, username in the middle, password innermost. *)
Definition nested_triples (hosts usernames passwords : list string)
  : list (string * string * string) :=
  flat_map (fun h =>
    flat_map (fun u => map (fun p => (h, u, p)) passwords) usernames) hosts.

(** ** Worlds to run the script in *)

(** A netname as the server sends it, with its terminating NUL. *)
Definition netname (s : string) : ShareInfo :=
  {| shi1_netname := (s ++ String Ascii.zero EmptyString)%string |}.

Definition dir (name : string) : SharedFile :=
  {| get_longname := name; is_directory := true |}.

Definition file (name : string) : SharedFile :=
  {| get_longname := name; is_directory := false |}.

(** A world that ignores the history: every connection succeeds, the
    local file system never refuses, and the rest is given. *)
Definition plain_world
    (login_answer : result unit)
    (shares : result (list ShareInfo))
    (listing : string -> result (list SharedFile))
    (content : string -> list (list byte) * result unit) : World :=
  {| smb_connect := fun _ _ => Ok tt;
     smb_login := fun _ _ _ _ => login_answer;
     smb_listShares := fun _ _ => shares;
     smb_listPath := fun _ _ _ pattern => listing pattern;
     smb_getFile := fun _ _ _ path => content path;
     smb_logoff := fun _ _ => Ok tt;
     os_makedirs := fun _ _ => Ok tt;
     os_open_wb := fun _ _ => Ok tt |}.

Definition whole (s : string) : list (list byte) * result unit :=
  ([list_byte_of_string s], Ok tt).

(** The scenario of the specification: one share [public] holding a
    directory [docs] with [a.txt], and [readme.txt]. *)
Definition scenario_listing (pattern : string) : result (list SharedFile) :=
  if pattern =? "*" then Ok [dir "."; dir ".."; dir "docs"; file "readme.txt"]
  else if pattern =? "docs\*" then Ok [dir "."; dir ".."; file "a.txt"]
  else Err "STATUS_OBJECT_PATH_NOT_FOUND".

Definition scenario_world : World :=
  plain_world (Ok tt) (Ok [netname "public"]) scenario_listing whole.

(** The same host refusing the login. *)
Definition login_refused_world : World :=
  plain_world (Err "STATUS_LOGON_FAILURE") (Ok [netname "public"])
              scenario_listing whole.

(** The same host reporting no share. *)
Definition no_share_world : World :=
  plain_world (Ok tt) (Ok []) scenario_listing whole.

(** The same host failing to list its shares. *)
Definition share_listing_fails_world : World :=
  plain_world (Ok tt) (Err "STATUS_ACCESS_DENIED") scenario_listing whole.

(** A server whose every directory holds a directory [X]. *)
Definition self_child_world : World :=
  plain_world (Ok tt) (Ok [netname "public"]) (fun _ => Ok [dir "X"]) whole.

(** A server that reports the directory [a] twice at the root. *)
Definition twice_listing (pattern : string) : result (list SharedFile) :=
  if pattern =? "*" then Ok [dir "a"; dir "a"] else Ok [].

Definition twice_world : World :=
  plain_world (Ok tt) (Ok [netname "public"]) twice_listing whole.

(** A share with directories [private] (listing denied) and [docs], and a
    file [readme.txt]. *)
Definition denied_listing (pattern : string) : result (list SharedFile) :=
  if pattern =? "*" then Ok [dir "private"; dir "docs"; file "readme.txt"]
  else if pattern =? "docs\*" then Ok [file "a.txt"]
  else Err "STATUS_ACCESS_DENIED".

Definition denied_world : World :=
  plain_world (Ok tt) (Ok [netname "public"]) denied_listing whole.

(** A share with two files; the transfer of the first breaks after one
    chunk. *)
Definition broken_content (path : string) : list (list byte) * result unit :=
  if path =? "big.bin" then ([list_byte_of_string "part"], Err "STATUS_IO_TIMEOUT")
  else whole path.

Definition broken_world : World :=
  plain_world (Ok tt) (Ok [netname "public"])
    (fun pattern => if pattern =? "*" then Ok [file "big.bin"; file "small.txt"]
                    else Ok [])
    broken_content.

(** A server that names a file with a leading separator. *)
Definition hostile_world : World :=
  plain_world (Ok tt) (Ok [netname "public"])
    (fun pattern => if pattern =? "*" then Ok [file "\tmp\owned"] else Ok [])
    whole.

(** A host with a share whose netname is one character long. *)
Definition short_netname_world : World :=
  plain_world (Ok tt) (Ok [{| shi1_netname := "$" |}])
    (fun pattern => if pattern =? "*" then Ok [file "x"] else Ok [])
    whole.

(** A host with two shares: [public], sent with its terminating NUL as
    the server sends netnames, and one whose netname is one character. *)
Definition two_netnames_world : World :=
  plain_world (Ok tt) (Ok [netname "public"; {| shi1_netname := "$" |}])
    (fun pattern => if pattern =? "*" then Ok [file "x"] else Ok [])
    whole.

Definition conn (host : string) : SMBConnection := {| remote_host := host |}.

(** A local file system that refuses to create directories. *)
Definition read_only_world : World :=
  {| smb_connect := fun _ _ => Ok tt;
     smb_login := fun _ _ _ _ => Ok tt;
     smb_listShares := fun _ _ => Ok [netname "public"];
     smb_listPath := fun _ _ _ pattern => scenario_listing pattern;
     smb_getFile := fun _ _ _ path => whole path;
     smb_logoff := fun _ _ => Ok tt;
     os_makedirs := fun _ _ => Err "PermissionError";
     os_open_wb := fun _ _ => Err "PermissionError" |}.

(** ** Properties of traces and worlds used in the statements *)

(** A call that ended in an exception. *)
Definition failed_call (ev : event) : bool :=
  match ev with
  | EvConnect _ (Err _) | EvLogin _ _ _ (Err _) | EvListShares _ (Err _)
  | EvListPath _ _ _ (Err _) | EvGetFile _ _ _ (Err _) | EvLogoff _ (Err _)
  | EvMakedirs _ (Err _) | EvOpen _ (Err _) => true
  | _ => false
  end.

(** The events [spider_files] can produce when walking [share] over the
    connection [c]. *)
Definition walker_event (c : SMBConnection) (share : string) (ev : event) : bool :=
  match ev with
  | EvListPath h s _ _ => (h =? remote_host c) && (s =? share)
  | EvGetFile h s _ _ => (h =? remote_host c) && (s =? share)
  | EvMakedirs _ _ | EvOpen _ _ | EvWrite _ _ => true
  | EvPrint (MsgErrorListingFiles s _) => s =? share
  | EvPrint (MsgDownloaded _ _) | EvPrint (MsgErrorDownloading _ _) => true
  | _ => false
  end.

(** The events [download_file] can produce for a file of [share]. *)
Definition download_event (c : SMBConnection) (share : string) (ev : event) : bool :=
  match ev with
  | EvGetFile h s _ _ => (h =? remote_host c) && (s =? share)
  | EvMakedirs _ _ | EvOpen _ _ | EvWrite _ _ => true
  | EvPrint (MsgDownloaded _ _) | EvPrint (MsgErrorDownloading _ _) => true
  | _ => false
  end.

(** A listing call made on a path of rank at most [r]. *)
Definition lists_within (rank : string -> nat) (r : nat) (ev : event) : Prop :=
  match ev with
  | EvListPath _ _ pattern _ =>
      exists q, pattern = (q ++ "*")%string /\ rank q <= r
  | _ => True
  end.

(** A listing call on another pattern than [pattern], or no listing call. *)
Definition lists_elsewhere (pattern : string) (ev : event) : Prop :=
  match ev with
  | EvListPath _ _ pattern' _ => pattern' <> pattern
  | _ => True
  end.

(** The three things every triple must leave in the trace, whatever the
    host answers: the announcement of line 125, the entry into
    [spider_smb_shares], and the connection attempt of line 54. *)
Inductive mark : Type :=
| Announced (host username : string)
| Entered (host username password : string)
| Connected (host : string).

Definition mark_of (ev : event) : list mark :=
  match ev with
  | EvPrint (MsgTrying h u) => [Announced h u]
  | EvAttempt h u p => [Entered h u p]
  | EvConnect h _ => [Connected h]
  | _ => []
  end.

Definition marks (tr : list event) : list mark := flat_map mark_of tr.

Definition triple_marks (t : string * string * string) : list mark :=
  [Announced (fst (fst t)) (snd (fst t));
   Entered (fst (fst t)) (snd (fst t)) (snd t);
   Connected (fst (fst t))].

(** An event that is none of the three marks. *)
Definition inner_event (ev : event) : Prop := mark_of ev = [].

(** Not the entry into [spider_smb_shares]. *)
Definition not_attempt (ev : event) : Prop :=
  match ev with
  | EvAttempt _ _ _ => False
  | _ => True
  end.

(** Every event of every run of [m] satisfies [P]. *)
Definition emits {A} (P : event -> Prop) (m : M A) : Prop :=
  forall h, Forall P (snd (m h)).

(** No run of [m] ends in an exception. *)
Definition never_raises {A} (m : M A) : Prop :=
  forall h e, fst (m h) <> Raised e.

(** Every run of [m] ends. *)
Definition never_diverges {A} (m : M A) : Prop :=
  forall h, fst (m h) <> Diverged.

(** The listings of [w] are well-founded: [rank] strictly decreases from a
    listed directory to each directory the walker would enter from it. *)
Definition well_founded_listing (w : World) (rank : string -> nat) : Prop :=
  forall h host share remote_path files f,
    smb_listPath w h host share (remote_path ++ "*") = Ok files ->
    In f files ->
    is_directory f = true ->
    is_dot (get_longname f) = false ->
    rank (child_remote_path remote_path (get_longname f)) < rank remote_path.

(** A rank for the scenario of the specification. *)
Definition scenario_rank (remote_path : string) : nat :=
  if remote_path =? "" then 1 else 0.

(** The loop body of [spider_files] at nesting budget [S fuel]. *)
Definition walk_body (w : World) (fuel : nat) (c : SMBConnection)
    (share remote_path local_base_path : string) : SharedFile -> M unit :=
  spider_entry w (spider_files w fuel) c share remote_path local_base_path.

(** The two paths [spider_files] computes for an entry. *)
Definition entry_remote (remote_path : string) (f : SharedFile) : string :=
  full_remote_path remote_path (get_longname f).

Definition entry_local (local_base_path remote_path : string) (f : SharedFile)
  : string :=
  local_path local_base_path (entry_remote remote_path f).

(** The entries of a listing that are not the self or the parent link. *)
Definition real_entries (files : list SharedFile) : list SharedFile :=
  filter (fun f => negb (is_dot (get_longname f))) files.

(** What a failed listing of [pattern] leaves in the trace. *)
Definition listing_failure (c : SMBConnection) (share pattern : string) (e : exn)
  : list event :=
  [EvListPath (remote_host c) share pattern (Err e);
   EvPrint (MsgErrorListingFiles share e)].

(** What one triple leaves in the trace when the login is refused. *)
Definition login_refused_trace (host username password : string) (e : exn)
  : list event :=
  [EvPrint (MsgTrying host username);
   EvAttempt host username password;
   EvConnect host (Ok tt);
   EvLogin host username password (Err e);
   EvPrint (MsgErrorConnecting host username e)].

(** What one triple leaves in the trace when the host has no share. *)
Definition no_share_trace (host username password : string) : list event :=
  [EvPrint (MsgTrying host username);
   EvAttempt host username password;
   EvConnect host (Ok tt);
   EvLogin host username password (Ok tt);
   EvListShares host (Ok []);
   EvPrint (MsgNoShares host username)].

(** What one triple leaves in the trace when listing the shares fails. *)
Definition share_listing_failed_trace (host username password : string) (e : exn)
  : list event :=
  [EvPrint (MsgTrying host username);
   EvAttempt host username password;
   EvConnect host (Ok tt);
   EvLogin host username password (Ok tt);
   EvListShares host (Err e);
   EvPrint (MsgErrorListingShares e);
   EvPrint (MsgNoShares host username)].

(** The names [list_shares] returns for the netnames the server sent. *)
Definition stripped_names (infos : list ShareInfo) : list string :=
  map (fun share => strip_last (shi1_netname share)) infos.

(** [name] is [reported] with its final character removed, as the
    specification words it; nothing is removed from the empty string. *)
Definition last_character_removed (reported name : string) : Prop :=
  (reported = ""%string /\ name = ""%string)
  \/ exists c : ascii, reported = (name ++ String c "")%string.

(** A triple as the tuple [itertools.product] yields. *)
Definition triple_list (t : string * string * string) : list string :=
  [fst (fst t); snd (fst t); snd t].

(** What [spider_smb_shares] leaves in the trace up to the answer of
    [listShares], when connecting and logging in succeed. *)
Definition session_opening (host username password : string)
    (infos : list ShareInfo) : list event :=
  [EvAttempt host username password;
   EvConnect host (Ok tt);
   EvLogin host username password (Ok tt);
   EvListShares host (Ok infos)].

(** The event uses no share name, or one of [names]. *)
Definition uses_share_of (names : list string) (ev : event) : Prop :=
  match share_used ev with
  | Some s => In s names
  | None => True
  end.

(** ** The input files (lines 118-121)

    Each of the three files is read line by line and every line is
    stripped.  A file is given here by the lines its iteration yields. *)

(** [c.isspace()] for a character below 256: tab to carriage return, the
    four separators 28 to 31, the space, NEL and the no-break space. *)
Definition is_space (c : ascii) : bool :=
  let n := nat_of_ascii c in
  (Nat.leb 9 n && Nat.leb n 13) || (Nat.leb 28 n && Nat.leb n 32)
  || Nat.eqb n 133 || Nat.eqb n 160.

(** [s.isspace() or s == ''] *)
Fixpoint all_space (s : string) : bool :=
  match s with
  | EmptyString => true
  | String c s' => is_space c && all_space s'
  end.

(** [s.lstrip()] *)
Fixpoint lstrip (s : string) : string :=
  match s with
  | EmptyString => EmptyString
  | String c s' => if is_space c then lstrip s' else s
  end.

(** [s.rstrip()] *)
Fixpoint rstrip (s : string) : string :=
  match s with
  | EmptyString => EmptyString
  | String c s' => if all_space s then EmptyString else String c (rstrip s')
  end.

(** [s.strip()] *)
Definition strip (s : string) : string := rstrip (lstrip s).

(** [[line.strip() for line in f]] *)
Definition read_list (lines : list string) : list string := map strip lines.

(** Lines 118-126: the three lists are read, then swept. *)
Definition sweep_files (w : World) (fuel : nat) (hf uf pf : list string) : M unit :=
  main w fuel (read_list hf) (read_list uf) (read_list pf).

(** The first and the last character of a string, when it has one. *)
Definition first_char (s : string) : option ascii :=
  match s with
  | EmptyString => None
  | String c _ => Some c
  end.

Fixpoint last_char (s : string) : option ascii :=
  match s with
  | EmptyString => None
  | String c s' =>
      match s' with
      | EmptyString => Some c
      | String _ _ => last_char s'
      end
  end.

(** No whitespace at either end. *)
Definition trimmed (s : string) : Prop :=
  (forall c, first_char s = Some c -> is_space c = false)
  /\ (forall c, last_char s = Some c -> is_space c = false).

(** ** A finite remote tree, to state what a walk mirrors *)

#[warnings="-register-all"]
Inductive remote_node : Type :=
| RFile (name : string)
| RDir (name : string) (children : list remote_node).

Definition node_name (n : remote_node) : string :=
  match n with
  | RFile s => s
  | RDir s _ => s
  end.

(** The entry [listPath] reports for a node. *)
Definition node_entry (n : remote_node) : SharedFile :=
  match n with
  | RFile s => file s
  | RDir s _ => dir s
  end.

(** The files below a node met while the walker holds [rp], in the order
    of the tree, each with the remote path it is read from and the local
    path it is written to. *)
Fixpoint mirrored (base rp : string) (n : remote_node) : list (string * string) :=
  match n with
  | RFile s => [(full_remote_path rp s, local_path base (full_remote_path rp s))]
  | RDir s kids => flat_map (mirrored base (child_remote_path rp s)) kids
  end.

Fixpoint height (n : remote_node) : nat :=
  match n with
  | RFile _ => 0
  | RDir _ kids => S (fold_right (fun k m => Nat.max (height k) m) 0 kids)
  end.

Definition forest_height (kids : list remote_node) : nat :=
  fold_right (fun k m => Nat.max (height k) m) 0 kids.

(** Listing [rp] always gives the entries of [kids], in order, possibly
    with self and parent links among them. *)
Definition lists_nodes (w : World) (host share rp : string)
    (kids : list remote_node) : Prop :=
  forall h, exists files,
    smb_listPath w h host share (rp ++ "*") = Ok files
    /\ real_entries files = map node_entry kids.

(** The server shows the node [n] to a walker holding [rp]: no node is
    named like a self or parent link, and every directory lists its
    children. *)
Fixpoint serves_node (w : World) (host share rp : string) (n : remote_node)
  : Prop :=
  is_dot (node_name n) = false
  /\ match n with
     | RFile _ => True
     | RDir s kids =>
         lists_nodes w host share (child_remote_path rp s) kids
         /\ (fix all (ks : list remote_node) : Prop :=
               match ks with
               | [] => True
               | k :: ks' =>
                   serves_node w host share (child_remote_path rp s) k /\ all ks'
               end) kids
     end.

Definition serves_dir (w : World) (host share rp : string)
    (kids : list remote_node) : Prop :=
  lists_nodes w host share rp kids
  /\ Forall (serves_node w host share rp) kids.

(** The local file system never refuses and every transfer completes. *)
Definition transfers_ok (w : World) : Prop :=
  (forall h p, os_makedirs w h p = Ok tt)
  /\ (forall h p, os_open_wb w h p = Ok tt)
  /\ (forall h host share p, snd (smb_getFile w h host share p) = Ok tt).

(** The downloads a trace announces: remote path and local path. *)
Definition downloads (tr : list event) : list (string * string) :=
  flat_map (fun ev => match ev with
                      | EvPrint (MsgDownloaded r l) => [(r, l)]
                      | _ => []
                      end) tr.

(** The chunks a trace writes to [local], in order. *)
Definition written (local : string) (tr : list event) : list (list byte) :=
  flat_map (fun ev => match ev with
                      | EvWrite p data => if p =? local then [data] else []
                      | _ => []
                      end) tr.

(** What a download leaves in the trace when every call succeeds. *)
Definition download_trace (c : SMBConnection) (share remote local : string)
    (chunks : list (list byte)) : list event :=
  [EvMakedirs (PosixPath.dirname local) (Ok tt);
   EvOpen local (Ok tt);
   EvGetFile (remote_host c) share remote (Ok tt)]
  ++ map (EvWrite local) chunks
  ++ [EvPrint (MsgDownloaded remote local)].

(** What one triple leaves in the trace when the host cannot be reached. *)
Definition unreachable_trace (host username password : string) (e : exn)
  : list event :=
  [EvPrint (MsgTrying host username);
   EvAttempt host username password;
   EvConnect host (Err e);
   EvPrint (MsgErrorConnecting host username e)].

(** How the trace of one triple may end: with nothing more, with the
    logoff, or with a logoff that raised and the line printed for it. *)
Definition session_end (host username : string) (post : list event) : Prop :=
  post = []
  \/ post = [EvLogoff host (Ok tt)]
  \/ exists e, post = [EvLogoff host (Err e);
                       EvPrint (MsgErrorConnecting host username e)].

(** The trace of one triple has one session end at most: a part without
    any logoff, then one of the three ends. *)
Definition one_session_end (host username : string) (tr : list event) : Prop :=
  exists pre post,
    tr = pre ++ post
    /\ filter is_logoff pre = []
    /\ session_end host username post.

(** The four ways a download can go, by the first call that fails. *)
Inductive download_shape (c : SMBConnection) (share remote local : string)
  : list event -> Prop :=
| MakedirsFailed (e : exn) :
    download_shape c share remote local
      [EvMakedirs (PosixPath.dirname local) (Err e);
       EvPrint (MsgErrorDownloading remote e)]
| OpenFailed (e : exn) :
    download_shape c share remote local
      [EvMakedirs (PosixPath.dirname local) (Ok tt);
       EvOpen local (Err e);
       EvPrint (MsgErrorDownloading remote e)]
| TransferFailed (chunks : list (list byte)) (e : exn) :
    download_shape c share remote local
      ([EvMakedirs (PosixPath.dirname local) (Ok tt);
        EvOpen local (Ok tt);
        EvGetFile (remote_host c) share remote (Err e)]
       ++ map (EvWrite local) chunks
       ++ [EvPrint (MsgErrorDownloading remote e)])
| Transferred (chunks : list (list byte)) :
    download_shape c share remote local
      (download_trace c share remote local chunks).

(** All three components of a triple have no whitespace at either end. *)
Definition trimmed_triple (t : string * string * string) : Prop :=
  trimmed (fst (fst t)) /\ trimmed (snd (fst t)) /\ trimmed (snd t).

(** A line feed, to write lines as a file yields them. *)
Definition nl : string := String "010"%char EmptyString.

(** The tree of the scenario of the specification. *)
Definition scenario_tree : list remote_node :=
  [RDir "docs" [RFile "a.txt"]; RFile "readme.txt"].

(** A host that cannot be reached. *)
Definition unreachable_world : World :=
  {| smb_connect := fun _ _ => Err "Connection refused";
     smb_login := fun _ _ _ _ => Ok tt;
     smb_listShares := fun _ _ => Ok [netname "public"];
     smb_listPath := fun _ _ _ pattern => scenario_listing pattern;
     smb_getFile := fun _ _ _ path => whole path;
     smb_logoff := fun _ _ => Ok tt;
     os_makedirs := fun _ _ => Ok tt;
     os_open_wb := fun _ _ => Ok tt |}.

(** The scenario with a local file system that refuses to create [denied]. *)
Definition mkdir_denied_world (denied : string) : World :=
  {| smb_connect := fun _ _ => Ok tt;
     smb_login := fun _ _ _ _ => Ok tt;
     smb_listShares := fun _ _ => Ok [netname "public"; netname "backup"];
     smb_listPath := fun _ _ _ pattern => scenario_listing pattern;
     smb_getFile := fun _ _ _ path => whole path;
     smb_logoff := fun _ _ => Ok tt;
     os_makedirs := fun _ p => if p =? denied then Err "PermissionError" else Ok tt;
     os_open_wb := fun _ _ => Ok tt |}.

(** A share with a directory [a] holding a directory [b], and a file [z];
    the local file system refuses to create the directory for [b]. *)
Definition nested_listing (pattern : string) : result (list SharedFile) :=
  if pattern =? "*" then Ok [dir "a"; file "z"]
  else if pattern =? "a\*" then Ok [dir "b"]
  else Ok [].

Definition nested_denied_world : World :=
  {| smb_connect := fun _ _ => Ok tt;
     smb_login := fun _ _ _ _ => Ok tt;
     smb_listShares := fun _ _ => Ok [netname "public"];
     smb_listPath := fun _ _ _ pattern => nested_listing pattern;
     smb_getFile := fun _ _ _ path => whole path;
     smb_logoff := fun _ _ => Ok tt;
     os_makedirs := fun _ p =>
       if p =? "output/10.0.0.5/public/a//b" then Err "PermissionError"
       else Ok tt;
     os_open_wb := fun _ _ => Ok tt |}.

(** [m] raises only when one of its calls has failed. *)
Definition raises_only_after_failure {A} (m : M A) : Prop :=
  forall h e, fst (m h) = Raised e -> existsb failed_call (snd (m h)) = true.

(** * Properties *)

(** ** Strings *)

Section StringFacts.

Lemma append_empty_r (s : string) : (s ++ "")%string = s.
Proof. induction s; simpl; congruence. Qed.

Lemma append_assoc (a b c : string) :
  ((a ++ b) ++ c = a ++ (b ++ c))%string.
Proof. induction a; simpl; congruence. Qed.

Lemma replace_backslash_append (a b : string) :
  replace_backslash (a ++ b) = (replace_backslash a ++ replace_backslash b)%string.
Proof. induction a; simpl; congruence. Qed.

Lemma has_backslash_append (a b : string) :
  has_backslash (a ++ b) = has_backslash a || has_backslash b.
Proof.
  induction a as [|c a IH]; simpl; [reflexivity|].
  rewrite IH. now rewrite orb_assoc.
Qed.

Lemma has_sep_append (a b : string) :
  has_sep (a ++ b) = has_sep a || has_sep b.
Proof.
  induction a as [|c a IH]; simpl; [reflexivity|].
  rewrite IH. now rewrite orb_assoc.
Qed.

Lemma replace_backslash_id (s : string) :
  has_backslash s = false -> replace_backslash s = s.
Proof.
  induction s as [|c s IH]; simpl; [reflexivity|].
  intros H. apply orb_false_elim in H as [Hc Hs].
  rewrite Hc, IH; auto.
Qed.

Lemma replace_backslash_clean (s : string) :
  has_backslash (replace_backslash s) = false.
Proof.
  induction s as [|c s IH]; simpl; [reflexivity|].
  rewrite IH, orb_false_r.
  destruct (Ascii.eqb c backslash) eqn:E; [reflexivity | exact E].
Qed.

(** Once the backslashes are replaced there is none left to strip: the
    [lstrip] of line 92 changes nothing. *)
Lemma lstrip_after_replace (s : string) :
  lstrip_backslash (replace_backslash s) = replace_backslash s.
Proof.
  destruct s as [|c s]; simpl; [reflexivity|].
  destruct (Ascii.eqb c backslash) eqn:E; simpl; [reflexivity|].
  now rewrite E.
Qed.

Lemma lstrip_clean (s : string) :
  has_backslash s = false -> lstrip_backslash s = s.
Proof.
  destruct s as [|c s]; simpl; [reflexivity|].
  intros H. apply orb_false_elim in H as [Hc _]. now rewrite Hc.
Qed.

Lemma endswith_sep_append_char (a : string) (c : ascii) :
  endswith_sep (a ++ String c "") = Ascii.eqb c sep.
Proof.
  induction a as [|x a IH]; simpl; [reflexivity|].
  destruct (a ++ String c "")%string eqn:E; [|exact IH].
  destruct a; discriminate.
Qed.

Lemma endswith_sep_append (a b : string) :
  b <> "" -> endswith_sep (a ++ b) = endswith_sep b.
Proof.
  intros Hb. induction a as [|x a IH]; simpl; [reflexivity|].
  destruct (a ++ b)%string eqn:E; [|exact IH].
  destruct a; simpl in E; [contradiction | discriminate].
Qed.

Lemma endswith_sep_no_sep (s : string) :
  has_sep s = false -> endswith_sep s = false.
Proof.
  induction s as [|c s IH]; simpl; [reflexivity|].
  intros H. apply orb_false_elim in H as [Hc Hs].
  destruct s; [exact Hc | now apply IH].
Qed.

Lemma startswith_sep_append (a b : string) :
  a <> "" -> startswith_sep (a ++ b) = startswith_sep a.
Proof. destruct a; [contradiction | reflexivity]. Qed.

Lemma startswith_sep_no_sep (s : string) :
  has_sep s = false -> startswith_sep s = false.
Proof.
  destruct s as [|c s]; simpl; [reflexivity|].
  intros H. now apply orb_false_elim in H as [Hc _].
Qed.

Lemma eqb_empty_append (a b : string) :
  b <> "" -> ((a ++ b) =? "")%string = false.
Proof.
  intros Hb. apply String.eqb_neq. destruct a; simpl; [exact Hb | discriminate].
Qed.

Lemma plain_name_inv (s : string) :
  plain_name s = true -> s <> "" /\ has_sep s = false /\ has_backslash s = false.
Proof.
  unfold plain_name. intros H.
  apply andb_prop in H as [H Hb]. apply andb_prop in H as [He Hs].
  apply negb_true_iff in Hb, Hs, He. apply String.eqb_neq in He. auto.
Qed.

Lemma entry_name_ok_inv (s : string) :
  entry_name_ok s = true -> plain_name s = true /\ is_dot s = false.
Proof.
  unfold entry_name_ok. intros H. apply andb_prop in H as [H1 H2].
  now apply negb_true_iff in H2.
Qed.

(** [os.path.join] with a relative second part. *)
Lemma join_relative (a b : string) :
  startswith_sep b = false -> PosixPath.join a b = (dir_prefix a ++ b)%string.
Proof.
  intros Hb. unfold PosixPath.join, dir_prefix. rewrite Hb.
  destruct ((a =? "")%string || endswith_sep a); [reflexivity|].
  now rewrite append_assoc.
Qed.

Lemma join_absolute (a b : string) :
  startswith_sep b = true -> PosixPath.join a b = b.
Proof. intros Hb. unfold PosixPath.join. now rewrite Hb. Qed.

Lemma split_sep_nonempty (s : string) : split_sep s <> [].
Proof.
  induction s as [|c s IH]; simpl; [discriminate|].
  destruct (Ascii.eqb c sep); [discriminate|].
  destruct (split_sep s); discriminate.
Qed.

Lemma split_sep_append (a b : string) :
  split_sep (a ++ String sep b) = split_sep a ++ split_sep b.
Proof.
  induction a as [|c a IH]; simpl; [reflexivity|].
  rewrite IH. destruct (Ascii.eqb c sep); [reflexivity|].
  destruct (split_sep a) eqn:E; [now apply split_sep_nonempty in E | reflexivity].
Qed.

Lemma split_sep_no_sep (s : string) :
  has_sep s = false -> split_sep s = [s].
Proof.
  induction s as [|c s IH]; simpl; [reflexivity|].
  intros H. apply orb_false_elim in H as [Hc Hs].
  rewrite Hc, IH; auto.
Qed.

Lemma components_append (a b : string) :
  PosixPath.components (a ++ String sep b)
  = PosixPath.components a ++ PosixPath.components b.
Proof.
  unfold PosixPath.components. now rewrite split_sep_append, filter_app.
Qed.

Lemma components_plain (s : string) :
  plain_name s = true -> PosixPath.components s = [s].
Proof.
  intros H. apply plain_name_inv in H as (He & Hs & _).
  unfold PosixPath.components. rewrite split_sep_no_sep by exact Hs.
  simpl. apply String.eqb_neq in He. now rewrite He.
Qed.

Lemma components_leading_sep (s : string) :
  PosixPath.components (String sep s) = PosixPath.components s.
Proof. reflexivity. Qed.

Lemma endswith_sep_inv (a : string) :
  endswith_sep a = true -> exists a', a = (a' ++ String sep "")%string.
Proof.
  induction a as [|c a IH]; [discriminate|].
  simpl. destruct a as [|d a].
  - intros E. apply Ascii.eqb_eq in E. subst c. now exists ""%string.
  - intros E. destruct (IH E) as [a' Ha']. exists (String c a').
    simpl. now rewrite <- Ha'.
Qed.

Lemma components_dir_prefix (a b : string) :
  PosixPath.components (dir_prefix a ++ b)
  = PosixPath.components a ++ PosixPath.components b.
Proof.
  unfold dir_prefix.
  destruct ((a =? "")%string) eqn:E; simpl.
  - apply String.eqb_eq in E. subst a. reflexivity.
  - destruct (endswith_sep a) eqn:E2.
    + apply endswith_sep_inv in E2 as [a' ->].
      rewrite append_assoc. simpl.
      rewrite !components_append. simpl. now rewrite app_nil_r.
    + rewrite append_assoc. simpl. apply components_append.
Qed.

Lemma components_join_with (names : list string) :
  forallb plain_name names = true ->
  PosixPath.components (join_with "//" names) = names.
Proof.
  induction names as [|n names IH]; [reflexivity|].
  intros H. simpl in H. apply andb_prop in H as [Hn Hr].
  destruct names as [|m names].
  - simpl. now apply components_plain.
  - change (join_with "//" (n :: m :: names))
      with (n ++ String sep (String sep (join_with "//" (m :: names))))%string.
    rewrite components_append, components_leading_sep.
    rewrite components_plain by exact Hn. now rewrite IH.
Qed.

Lemma join_with_snoc (names : list string) (n : string) :
  names <> [] ->
  join_with "//" (names ++ [n]) = (join_with "//" names ++ "//" ++ n)%string.
Proof.
  induction names as [|a names IH]; [contradiction|]. intros _.
  destruct names as [|b names]; [reflexivity|].
  change (join_with "//" ((a :: b :: names) ++ [n]))
    with (a ++ "//" ++ join_with "//" ((b :: names) ++ [n]))%string.
  rewrite IH by discriminate.
  change (join_with "//" (a :: b :: names))
    with (a ++ "//" ++ join_with "//" (b :: names))%string.
  now rewrite !append_assoc.
Qed.

Lemma join_with_clean (names : list string) :
  forallb plain_name names = true ->
  has_backslash (join_with "//" names) = false.
Proof.
  induction names as [|n names IH]; [reflexivity|].
  intros H. simpl in H. apply andb_prop in H as [Hn Hr].
  apply plain_name_inv in Hn as (_ & _ & Hb).
  destruct names as [|m names]; [exact Hb|].
  change (join_with "//" (n :: m :: names))
    with (n ++ "//" ++ join_with "//" (m :: names))%string.
  rewrite !has_backslash_append, Hb, IH by exact Hr. reflexivity.
Qed.

Lemma join_with_head (names : list string) :
  forallb plain_name names = true -> names <> [] ->
  join_with "//" names <> ""%string
  /\ startswith_sep (join_with "//" names) = false.
Proof.
  destruct names as [|n names]; [contradiction|]. intros H _.
  simpl in H. apply andb_prop in H as [Hn _].
  apply plain_name_inv in Hn as (He & Hs & _).
  destruct names as [|m names].
  - split; [exact He | now apply startswith_sep_no_sep].
  - change (join_with "//" (n :: m :: names))
      with (n ++ "//" ++ join_with "//" (m :: names))%string.
    split.
    + destruct n; [contradiction | discriminate].
    + rewrite startswith_sep_append by exact He.
      now apply startswith_sep_no_sep.
Qed.

(** The remote path the walker holds below plain directory names. *)
Lemma remote_path_of_plain (dirs : list string) :
  forallb plain_name dirs = true -> dirs <> [] ->
  remote_path_of dirs = (join_with "//" dirs ++ "\")%string.
Proof.
  unfold remote_path_of.
  induction dirs as [|n dirs IH] using rev_ind; [contradiction|].
  intros H _. rewrite forallb_app in H. apply andb_prop in H as [Hd Hn].
  simpl in Hn. rewrite andb_true_r in Hn.
  rewrite fold_left_app. cbn [fold_left].
  pose proof (plain_name_inv _ Hn) as (He & Hs & Hb).
  unfold child_remote_path at 1. unfold full_remote_path.
  destruct dirs as [|d dirs].
  - simpl. rewrite join_relative by now apply startswith_sep_no_sep.
    simpl. now rewrite replace_backslash_id.
  - rewrite IH by (auto; discriminate).
    rewrite join_with_snoc by discriminate.
    rewrite join_relative by now apply startswith_sep_no_sep.
    pose proof (join_with_clean _ Hd) as HJ.
    remember (join_with "//" (d :: dirs)) as J.
    unfold dir_prefix.
    rewrite eqb_empty_append by discriminate.
    rewrite endswith_sep_append_char.
    cbn [Ascii.eqb Bool.eqb sep orb].
    rewrite !replace_backslash_append.
    rewrite (replace_backslash_id J) by exact HJ.
    rewrite (replace_backslash_id n) by exact Hb.
    cbn. now rewrite !append_assoc.
Qed.

(** The remote path of an entry below plain directory names. *)
Lemma full_remote_path_plain (dirs : list string) (n : string) :
  forallb plain_name (dirs ++ [n]) = true ->
  full_remote_path (remote_path_of dirs) n = join_with "//" (dirs ++ [n]).
Proof.
  intros H. pose proof H as H0.
  rewrite forallb_app in H. apply andb_prop in H as [Hd Hn].
  simpl in Hn. rewrite andb_true_r in Hn.
  pose proof (plain_name_inv _ Hn) as (He & Hs & Hb).
  unfold full_remote_path.
  rewrite join_relative by now apply startswith_sep_no_sep.
  destruct dirs as [|d dirs].
  - simpl. now apply replace_backslash_id.
  - rewrite remote_path_of_plain by (auto; discriminate).
    rewrite join_with_snoc by discriminate.
    pose proof (join_with_clean _ Hd) as HJ.
    remember (join_with "//" (d :: dirs)) as J.
    unfold dir_prefix.
    rewrite eqb_empty_append by discriminate.
    rewrite endswith_sep_append_char.
    cbn [Ascii.eqb Bool.eqb sep orb].
    rewrite !replace_backslash_append.
    rewrite (replace_backslash_id J) by exact HJ.
    rewrite (replace_backslash_id n) by exact Hb.
    cbn. now rewrite !append_assoc.
Qed.

Lemma strip_prefix_app (pre rest : list string) :
  PosixPath.strip_prefix pre (pre ++ rest) = Some rest.
Proof.
  induction pre as [|a pre IH]; simpl; [reflexivity|].
  now rewrite String.eqb_refl.
Qed.

Lemma stays_below_ok (names : list string) :
  forallb entry_name_ok names = true ->
  forall depth, PosixPath.stays_below depth names = true.
Proof.
  induction names as [|n names IH]; [reflexivity|].
  intros H depth. simpl in H. apply andb_prop in H as [Hn Hr].
  apply entry_name_ok_inv in Hn as [_ Hdot].
  unfold is_dot in Hdot. apply orb_false_elim in Hdot as [H1 H2].
  simpl. rewrite H1, H2. now apply IH.
Qed.

Lemma forallb_weaken {A} (p q : A -> bool) (l : list A) :
  (forall x, p x = true -> q x = true) ->
  forallb p l = true -> forallb q l = true.
Proof.
  intros Hpq. induction l as [|x l IH]; simpl; [reflexivity|].
  intros H. apply andb_prop in H as [Hx Hl]. now rewrite Hpq, IH.
Qed.

Lemma strip_last_single (c : ascii) : strip_last (String c "") = ""%string.
Proof. reflexivity. Qed.

Lemma strip_last_append (s : string) (c : ascii) :
  strip_last (s ++ String c "") = s.
Proof.
  induction s as [|d s IH]; [reflexivity|].
  simpl. rewrite IH. destruct (s ++ String c "")%string eqn:E.
  - destruct s; discriminate.
  - reflexivity.
Qed.

(** [s[:-1]] is [s] without its last character. *)
Lemma strip_last_spec (s : string) :
  (s = ""%string /\ strip_last s = ""%string)
  \/ exists c : ascii, s = (strip_last s ++ String c "")%string.
Proof.
  destruct s as [|c s]; [left; split; reflexivity|]. right.
  revert c. induction s as [|d s IH]; intros c.
  - exists c. reflexivity.
  - destruct (IH d) as [x E]. exists x.
    change (strip_last (String c (String d s)))
      with (String c (strip_last (String d s))).
    change (String c (String d s)
            = String c (strip_last (String d s) ++ String x "")%string).
    now rewrite <- E.
Qed.

End StringFacts.

(** ** Path mapping *)

Section PathMapping.

Variables host share : string.
Variable dirs : list string.
Variable n : string.
Hypothesis share_plain : plain_name share = true.
Hypothesis names_ok : forallb entry_name_ok (dirs ++ [n]) = true.

Local Lemma names_plain : forallb plain_name (dirs ++ [n]) = true.
Proof.
  apply (forallb_weaken entry_name_ok); [|exact names_ok].
  intros x Hx. now apply entry_name_ok_inv in Hx.
Qed.

Lemma share_directory_plain :
  share_directory host share = (dir_prefix (host_directory host) ++ share)%string
  /\ dir_prefix (share_directory host share) = (share_directory host share ++ "/")%string
  /\ share_directory host share <> ""%string.
Proof.
  pose proof (plain_name_inv _ share_plain) as (He & Hs & _).
  assert (E : share_directory host share
              = (dir_prefix (host_directory host) ++ share)%string).
  { unfold share_directory. apply join_relative.
    now apply startswith_sep_no_sep. }
  split; [exact E|]. rewrite E. split.
  - unfold dir_prefix at 1.
    rewrite eqb_empty_append by exact He.
    rewrite endswith_sep_append by exact He.
    now rewrite endswith_sep_no_sep.
  - destruct (dir_prefix (host_directory host)); simpl; [exact He | discriminate].
Qed.

Lemma entity_local_path_plain :
  entity_local_path host share dirs n
  = (share_directory host share ++ "/" ++ join_with "//" (dirs ++ [n]))%string.
Proof.
  unfold entity_local_path, local_path.
  rewrite full_remote_path_plain by exact names_plain.
  rewrite lstrip_clean by (apply join_with_clean; exact names_plain).
  destruct (join_with_head (dirs ++ [n]) names_plain) as [_ Hst].
  { destruct dirs; discriminate. }
  rewrite join_relative by exact Hst.
  destruct share_directory_plain as (_ & -> & _).
  now rewrite append_assoc.
Qed.

Lemma entity_components :
  PosixPath.components (entity_local_path host share dirs n)
  = PosixPath.components (host_directory host) ++ share :: dirs ++ [n].
Proof.
  rewrite entity_local_path_plain.
  change ("/" ++ join_with "//" (dirs ++ [n]))%string
    with (String sep (join_with "//" (dirs ++ [n]))).
  rewrite components_append, components_join_with by exact names_plain.
  destruct share_directory_plain as (-> & _ & _).
  rewrite components_dir_prefix, (components_plain share share_plain).
  now rewrite <- app_assoc.
Qed.

Lemma entity_descendant :
  PosixPath.descendant_of (share_directory host share)
                          (entity_local_path host share dirs n) = true.
Proof.
  unfold PosixPath.descendant_of.
  assert (C : PosixPath.components (entity_local_path host share dirs n)
              = PosixPath.components (share_directory host share) ++ dirs ++ [n]).
  { rewrite entity_components.
    destruct share_directory_plain as (-> & _ & _).
    rewrite components_dir_prefix, (components_plain share share_plain).
    now rewrite <- app_assoc. }
  rewrite C, strip_prefix_app, stays_below_ok by exact names_ok.
  rewrite entity_local_path_plain.
  destruct share_directory_plain as (_ & _ & Hne).
  rewrite startswith_sep_append by exact Hne.
  now rewrite Bool.eqb_reflx.
Qed.

End PathMapping.

(** C1, as the code has it.  The mapping is a function of host, share and
    the names walked through.  When the share name and every entry name on
    the way are not empty, hold neither [/] nor [\] and are not [.] or [..],
    the local path is [output/<host>/<share>/] followed by the names joined
    with [//]; it lies below the share directory; and two entries of the
    same host with equal local path components are in the same share, under
    the same directories, with the same name. *)
Theorem C1_plain_names_map_below_share
    (host share share' : string) (dirs dirs' : list string) (n n' : string) :
  plain_name share = true ->
  forallb entry_name_ok (dirs ++ [n]) = true ->
  plain_name share' = true ->
  forallb entry_name_ok (dirs' ++ [n']) = true ->
  entity_local_path host share dirs n
  = (share_directory host share ++ "/" ++ join_with "//" (dirs ++ [n]))%string
  /\ PosixPath.descendant_of (share_directory host share)
                             (entity_local_path host share dirs n) = true
  /\ (PosixPath.components (entity_local_path host share dirs n)
      = PosixPath.components (entity_local_path host share' dirs' n') ->
      share = share' /\ dirs = dirs' /\ n = n').
Proof.
  intros Hs Hn Hs' Hn'. split; [|split].
  - now apply entity_local_path_plain.
  - now apply entity_descendant.
  - rewrite !entity_components by assumption.
    intros E. apply app_inv_head in E. injection E as E1 E2.
    apply app_inj_tail in E2 as [E2 E3]. auto.
Qed.

Lemma C1_plain_names_map_below_share_witness :
  entity_local_path "10.0.0.5" "public" ["docs"] "a.txt"
  = "output/10.0.0.5/public/docs//a.txt"%string
  /\ PosixPath.descendant_of "output/10.0.0.5/public"
       (entity_local_path "10.0.0.5" "public" ["docs"] "a.txt") = true.
Proof.
  destruct (C1_plain_names_map_below_share
              "10.0.0.5" "public" "public" ["docs"] [] "a.txt" "readme.txt"
              eq_refl eq_refl eq_refl eq_refl) as (H1 & H2 & _).
  split; [exact H1 | exact H2].
Defined.

(** C1 as the specification states it fails on the code.  A name with a
    leading separator leaves the output tree; a name with parent segments
    climbs out of the share directory; and different entries reach the same
    local file. *)
Lemma C1_counterexample :
  entity_local_path "10.0.0.5" "public" [] "\tmp\owned" = "/tmp/owned"%string
  /\ PosixPath.descendant_of (share_directory "10.0.0.5" "public")
       (entity_local_path "10.0.0.5" "public" [] "\tmp\owned") = false
  /\ PosixPath.descendant_of (share_directory "10.0.0.5" "public")
       (entity_local_path "10.0.0.5" "public" [] "..\..\..\etc\passwd") = false
  /\ entity_local_path "10.0.0.5" "public" ["docs"] "a.txt"
     = entity_local_path "10.0.0.5" "public" [] "docs//a.txt"
  /\ PosixPath.components (entity_local_path "10.0.0.5" "" ["a"] "b")
     = PosixPath.components (entity_local_path "10.0.0.5" "a" [] "b").
Proof. repeat split; reflexivity. Qed.

(** ** The monad *)

Section MonadFacts.

Context {A B : Type}.

Lemma bind_done (m : M A) (k : A -> M B) (h : history) (a : A) (t1 : list event) :
  m h = (Done a, t1) ->
  bind m k h = (fst (k a (h ++ t1)), t1 ++ snd (k a (h ++ t1))).
Proof. intros E. unfold bind. rewrite E. now destruct (k a (h ++ t1)). Qed.

Lemma bind_raised (m : M A) (k : A -> M B) (h : history) (e : exn) (t1 : list event) :
  m h = (Raised e, t1) -> bind m k h = (Raised e, t1).
Proof. intros E. unfold bind. now rewrite E. Qed.

Lemma bind_diverged (m : M A) (k : A -> M B) (h : history) (t1 : list event) :
  m h = (Diverged, t1) -> bind m k h = (Diverged, t1).
Proof. intros E. unfold bind. now rewrite E. Qed.

Lemma try_except_done (body : M A) (handler : exn -> M A) h a t1 :
  body h = (Done a, t1) -> try_except body handler h = (Done a, t1).
Proof. intros E. unfold try_except. now rewrite E. Qed.

Lemma try_except_raised (body : M A) (handler : exn -> M A) h e t1 :
  body h = (Raised e, t1) ->
  try_except body handler h
  = (fst (handler e (h ++ t1)), t1 ++ snd (handler e (h ++ t1))).
Proof.
  intros E. unfold try_except. rewrite E. now destruct (handler e (h ++ t1)).
Qed.

Lemma emits_bind (P : event -> Prop) (m : M A) (k : A -> M B) :
  emits P m -> (forall a, emits P (k a)) -> emits P (bind m k).
Proof.
  intros Hm Hk h. unfold bind. specialize (Hm h).
  destruct (m h) as [[a|e|] t1]; simpl in *; try exact Hm.
  specialize (Hk a (h ++ t1)). destruct (k a (h ++ t1)) as [o t2]; simpl in *.
  apply Forall_app. auto.
Qed.

Lemma emits_try_except (P : event -> Prop) (body : M A) (handler : exn -> M A) :
  emits P body -> (forall e, emits P (handler e)) -> emits P (try_except body handler).
Proof.
  intros Hm Hk h. unfold try_except. specialize (Hm h).
  destruct (body h) as [[a|e|] t1]; simpl in *; try exact Hm.
  specialize (Hk e (h ++ t1)). destruct (handler e (h ++ t1)) as [o t2]; simpl in *.
  apply Forall_app. auto.
Qed.

Lemma emits_call (P : event -> Prop) (answer : history -> result A)
    (ev : result A -> event) :
  (forall r, P (ev r)) -> emits P (call answer ev).
Proof.
  intros H h. unfold call. destruct (answer h); simpl; auto.
Qed.

Lemma emits_ret (P : event -> Prop) (a : A) : emits P (ret a).
Proof. intros h. constructor. Qed.

Lemma emits_raise (P : event -> Prop) (e : exn) : emits P (@raise A e).
Proof. intros h. constructor. Qed.

Lemma emits_diverge (P : event -> Prop) : emits P (@diverge A).
Proof. intros h. constructor. Qed.

Lemma emits_weaken (P Q : event -> Prop) (m : M A) :
  (forall ev, P ev -> Q ev) -> emits P m -> emits Q m.
Proof. intros H Hm h. eapply Forall_impl; [exact H | apply Hm]. Qed.

Lemma never_raises_bind (m : M A) (k : A -> M B) :
  never_raises m -> (forall a, never_raises (k a)) -> never_raises (bind m k).
Proof.
  intros Hm Hk h e. unfold bind. specialize (Hm h).
  destruct (m h) as [[a|e'|] t1]; simpl in *.
  - specialize (Hk a (h ++ t1) e). now destruct (k a (h ++ t1)).
  - now destruct (Hm e').
  - discriminate.
Qed.

Lemma never_raises_try_except (body : M A) (handler : exn -> M A) :
  (forall e, never_raises (handler e)) -> never_raises (try_except body handler).
Proof.
  intros Hk h e. unfold try_except.
  destruct (body h) as [[a|e'|] t1]; simpl; try discriminate.
  specialize (Hk e' (h ++ t1) e). now destruct (handler e' (h ++ t1)).
Qed.

Lemma never_diverges_bind (m : M A) (k : A -> M B) :
  never_diverges m -> (forall a, never_diverges (k a)) -> never_diverges (bind m k).
Proof.
  intros Hm Hk h. unfold bind. specialize (Hm h).
  destruct (m h) as [[a|e'|] t1]; simpl in *; try discriminate.
  - specialize (Hk a (h ++ t1)). now destruct (k a (h ++ t1)).
  - contradiction.
Qed.

Lemma never_diverges_try_except (body : M A) (handler : exn -> M A) :
  never_diverges body -> (forall e, never_diverges (handler e)) ->
  never_diverges (try_except body handler).
Proof.
  intros Hm Hk h. unfold try_except. specialize (Hm h).
  destruct (body h) as [[a|e'|] t1]; simpl in *; try discriminate.
  - specialize (Hk e' (h ++ t1)). now destruct (handler e' (h ++ t1)).
  - contradiction.
Qed.

Lemma never_diverges_call (answer : history -> result A) (ev : result A -> event) :
  never_diverges (call answer ev).
Proof. intros h. unfold call. destruct (answer h); discriminate. Qed.

Lemma never_diverges_ret (a : A) : never_diverges (ret a).
Proof. intros h. discriminate. Qed.

End MonadFacts.

Lemma emits_emit (P : event -> Prop) (ev : event) : P ev -> emits P (emit ev).
Proof. intros H h. simpl. auto. Qed.

Lemma never_raises_emit (ev : event) : never_raises (emit ev).
Proof. intros h e. discriminate. Qed.

Lemma never_diverges_emit (ev : event) : never_diverges (emit ev).
Proof. intros h. discriminate. Qed.

Lemma emits_for_each {A} (P : event -> Prop) (xs : list A) (body : A -> M unit) :
  (forall x, emits P (body x)) -> emits P (for_each xs body).
Proof.
  intros H. induction xs as [|x xs IH]; simpl.
  - apply emits_ret.
  - apply emits_bind; auto.
Qed.

Lemma never_diverges_for_each {A} (xs : list A) (body : A -> M unit) :
  (forall x, In x xs -> never_diverges (body x)) -> never_diverges (for_each xs body).
Proof.
  induction xs as [|x xs IH]; simpl; intros H.
  - apply never_diverges_ret.
  - apply never_diverges_bind; [apply H; now left|].
    intros _. apply IH. intros y Hy. apply H. now right.
Qed.

Lemma for_each_cons {A} (x : A) (rest : list A) (body : A -> M unit) :
  for_each (x :: rest) body = bind (body x) (fun _ => for_each rest body).
Proof. reflexivity. Qed.

(** The loop goes on after an item whose body ends normally. *)
Lemma for_each_cons_done {A} (x : A) (rest : list A) (body : A -> M unit)
    (h : history) (t1 : list event) :
  body x h = (Done tt, t1) ->
  for_each (x :: rest) body h
  = (fst (for_each rest body (h ++ t1)), t1 ++ snd (for_each rest body (h ++ t1))).
Proof.
  intros E. exact (bind_done (body x) (fun _ => for_each rest body) h tt t1 E).
Qed.

Lemma try_except_bind_done {A B} (m : M A) (k : A -> M B) (handler : exn -> M B)
    (h : history) (a : A) (t1 : list event) :
  m h = (Done a, t1) ->
  try_except (bind m k) handler h
  = (fst (try_except (k a) handler (h ++ t1)),
     t1 ++ snd (try_except (k a) handler (h ++ t1))).
Proof.
  intros E. unfold try_except, bind. rewrite E.
  destruct (k a (h ++ t1)) as [[b|e|] t2]; simpl; try reflexivity.
  rewrite <- app_assoc.
  destruct (handler e (h ++ t1 ++ t2)) as [o t3]. simpl.
  now rewrite app_assoc.
Qed.

Lemma try_except_bind_raised {A B} (m : M A) (k : A -> M B) (handler : exn -> M B)
    (h : history) (e : exn) (t1 : list event) :
  m h = (Raised e, t1) ->
  try_except (bind m k) handler h
  = (fst (handler e (h ++ t1)), t1 ++ snd (handler e (h ++ t1))).
Proof.
  intros E. apply try_except_raised. now apply bind_raised.
Qed.

Lemma emits_getFile (w : World) (P : event -> Prop) (c : SMBConnection)
    (share path local : string) :
  (forall r, P (EvGetFile (remote_host c) share path r)) ->
  (forall data, P (EvWrite local data)) ->
  emits P (getFile w c share path local).
Proof.
  intros H1 H2 h. unfold getFile.
  destruct (smb_getFile w h (remote_host c) share path) as [chunks r]. simpl.
  constructor; [apply H1|]. apply Forall_map, Forall_forall. auto.
Qed.

Lemma never_diverges_getFile (w : World) (c : SMBConnection)
    (share path local : string) :
  never_diverges (getFile w c share path local).
Proof.
  intros h. unfold getFile.
  destruct (smb_getFile w h (remote_host c) share path) as [chunks [?|?]];
    discriminate.
Qed.

Ltac emits_step :=
  match goal with
  | |- emits _ (bind _ _) => apply emits_bind; [|intros ?]
  | |- emits _ (try_except _ _) => apply emits_try_except; [|intros ?]
  | |- emits _ (for_each _ _) => apply emits_for_each; intros ?
  | |- emits _ (call _ _) => apply emits_call; intros ?
  | |- emits _ (getFile _ _ _ _ _) => apply emits_getFile; intros ?
  | |- emits _ (print _) => apply emits_emit
  | |- emits _ (emit _) => apply emits_emit
  | |- emits _ (ret _) => apply emits_ret
  | |- emits _ (raise _) => apply emits_raise
  | |- emits _ diverge => apply emits_diverge
  | |- emits _ (if ?b then _ else _) => destruct b
  | |- emits _ (match ?x with _ => _ end) => destruct x
  end.

Ltac never_diverges_step :=
  match goal with
  | |- never_diverges (bind _ _) => apply never_diverges_bind; [|intros ?]
  | |- never_diverges (try_except _ _) => apply never_diverges_try_except; [|intros ?]
  | |- never_diverges (call _ _) => apply never_diverges_call
  | |- never_diverges (getFile _ _ _ _ _) => apply never_diverges_getFile
  | |- never_diverges (print _) => apply never_diverges_emit
  | |- never_diverges (emit _) => apply never_diverges_emit
  | |- never_diverges (ret _) => apply never_diverges_ret
  end.

(** ** The functions of the script, one by one *)

Section ScriptFacts.

Variable w : World.

(** [list_files] never lets an exception out: it gives the listing, or
    prints the failure and gives the empty list. *)
Lemma list_files_cases (c : SMBConnection) (share rp : string) (h : history) :
  (exists files,
      smb_listPath w h (remote_host c) share (rp ++ "*") = Ok files /\
      list_files w c share rp h
      = (Done files, [EvListPath (remote_host c) share (rp ++ "*") (Ok files)]))
  \/
  (exists e,
      smb_listPath w h (remote_host c) share (rp ++ "*") = Err e /\
      list_files w c share rp h
      = (Done [], [EvListPath (remote_host c) share (rp ++ "*") (Err e);
                   EvPrint (MsgErrorListingFiles share e)])).
Proof.
  unfold list_files, try_except, listPath, call.
  destruct (smb_listPath w h (remote_host c) share (rp ++ "*")) as [files|e].
  - left. now exists files.
  - right. now exists e.
Qed.

(** [download_file] never lets an exception out. *)
Lemma download_file_done (c : SMBConnection) (share remote local : string)
    (h : history) :
  fst (download_file w c share remote local h) = Done tt.
Proof.
  unfold download_file, try_except, bind, makedirs, open_wb, getFile, call, print, emit.
  destruct (os_makedirs w h (PosixPath.dirname local)) as [[]|e]; [|reflexivity].
  destruct (os_open_wb w _ local) as [[]|e]; [|reflexivity].
  destruct (smb_getFile w _ (remote_host c) share remote) as [chunks [[]|e]];
    reflexivity.
Qed.

Lemma emits_download_file (P : event -> Prop) (c : SMBConnection)
    (share remote local : string) :
  (forall ev, download_event c share ev = true -> P ev) ->
  emits P (download_file w c share remote local).
Proof.
  intros HP. unfold download_file, makedirs, open_wb.
  repeat emits_step; apply HP; simpl; now rewrite ?String.eqb_refl.
Qed.

Lemma download_event_walker (c : SMBConnection) (share : string) (ev : event) :
  download_event c share ev = true -> walker_event c share ev = true.
Proof. destruct ev as [| [] | | | | | | | | |]; simpl; auto; discriminate. Qed.

(** Whatever [spider_files] does, it does on its own share and connection,
    and it prints nothing but listing and download reports. *)
Lemma emits_spider_files (P : event -> Prop) (fuel : nat) (c : SMBConnection)
    (share : string) :
  (forall ev, walker_event c share ev = true -> P ev) ->
  forall rp base, emits P (spider_files w fuel c share rp base).
Proof.
  intros HP. induction fuel as [|fuel IH]; intros rp base; simpl.
  - unfold list_files_at_limit.
    repeat emits_step; apply HP; simpl; now rewrite ?String.eqb_refl.
  - unfold list_files, listPath.
    apply emits_bind.
    + repeat emits_step; apply HP; simpl; now rewrite ?String.eqb_refl.
    + intros files. apply emits_for_each. intros f. unfold spider_entry.
      destruct (is_dot (get_longname f)); [apply emits_ret|].
      destruct (is_directory f).
      * apply emits_bind; [|intros _; apply IH].
        unfold makedirs. apply emits_call. intros r. now apply HP.
      * apply emits_download_file. intros ev Hev.
        now apply HP, download_event_walker.
Qed.

(** [spider_files] always ends, normally or by an exception. *)
Lemma spider_files_returns (fuel : nat) (c : SMBConnection) (share base : string) :
  forall rp, never_diverges (spider_files w fuel c share rp base).
Proof.
  induction fuel as [|fuel IH]; intros rp.
  - intros h. simpl. discriminate.
  - simpl. apply never_diverges_bind.
    + intros h.
      destruct (list_files_cases c share rp h)
        as [(files & _ & ->) | (e & _ & ->)]; discriminate.
    + intros files. apply never_diverges_for_each. intros f _.
      unfold spider_entry.
      destruct (is_dot (get_longname f)); [apply never_diverges_ret|].
      destruct (is_directory f).
      * apply never_diverges_bind; [apply never_diverges_call|].
        intros _. apply IH.
      * intros h. rewrite download_file_done. discriminate.
Qed.

End ScriptFacts.

(** ** The walker *)

Section Walker.

Variable w : World.

Lemma for_each_real_entries (body : SharedFile -> M unit) (files : list SharedFile) :
  (forall f h, is_dot (get_longname f) = true -> body f h = (Done tt, [])) ->
  forall h, for_each files body h = for_each (real_entries files) body h.
Proof.
  intros Hdot. induction files as [|f files IH]; intros h; [reflexivity|].
  unfold real_entries. simpl filter.
  destruct (is_dot (get_longname f)) eqn:E; simpl negb; cbv iota.
  - rewrite (for_each_cons_done f files body h [] (Hdot f h E)).
    rewrite app_nil_r. simpl. rewrite IH. now destruct (for_each _ body h).
  - simpl. unfold bind. destruct (body f h) as [[[]|e|] t1]; try reflexivity.
    now rewrite IH.
Qed.

Lemma spider_entry_dot (recurse : SMBConnection -> string -> string -> string -> M unit)
    (c : SMBConnection) (share rp base : string) (f : SharedFile) (h : history) :
  is_dot (get_longname f) = true ->
  spider_entry w recurse c share rp base f h = (Done tt, []).
Proof. intros E. unfold spider_entry. now rewrite E. Qed.

(** C9.  An entry named [.] or [..] leaves no trace at all, directory or
    not: nothing is created, listed or downloaded for it.  So every listing
    is processed as if these entries had been removed from it first. *)
Theorem C9_self_and_parent_links_skipped
    (fuel : nat) (c : SMBConnection) (share rp base : string) (isdir : bool)
    (h : history) :
  walk_body w fuel c share rp base
    {| get_longname := "."; is_directory := isdir |} h = (Done tt, [])
  /\ walk_body w fuel c share rp base
       {| get_longname := ".."; is_directory := isdir |} h = (Done tt, [])
  /\ spider_files w (S fuel) c share rp base h
     = bind (list_files w c share rp)
            (fun files =>
               for_each (real_entries files) (walk_body w fuel c share rp base)) h.
Proof.
  split; [reflexivity|]. split; [reflexivity|].
  simpl. unfold bind.
  destruct (list_files w c share rp h) as [[files|e|] t1]; try reflexivity.
  fold (walk_body w fuel c share rp base).
  rewrite (for_each_real_entries (walk_body w fuel c share rp base) files);
    [reflexivity|].
  intros f h' E. now apply spider_entry_dot.
Qed.

(** C6.  When listing the directory [f] fails, the failure is caught in the
    call for that directory, which prints it and ends normally; the loop
    over the parent listing then goes on with the entries after [f]. *)
Theorem C6_listing_failure_is_local
    (fuel : nat) (c : SMBConnection) (share rp base : string)
    (f : SharedFile) (rest : list SharedFile) (h : history) (e : exn) :
  is_dot (get_longname f) = false ->
  is_directory f = true ->
  os_makedirs w h (entry_local base rp f) = Ok tt ->
  smb_listPath w (h ++ [EvMakedirs (entry_local base rp f) (Ok tt)])
    (remote_host c) share ((entry_remote rp f ++ "\") ++ "*") = Err e ->
  spider_files w (S fuel) c share (entry_remote rp f ++ "\") base
    (h ++ [EvMakedirs (entry_local base rp f) (Ok tt)])
  = (Done tt, listing_failure c share ((entry_remote rp f ++ "\") ++ "*") e)
  /\ for_each (f :: rest) (walk_body w (S fuel) c share rp base) h
     = (fst (for_each rest (walk_body w (S fuel) c share rp base)
               (h ++ EvMakedirs (entry_local base rp f) (Ok tt)
                  :: listing_failure c share ((entry_remote rp f ++ "\") ++ "*") e)),
        (EvMakedirs (entry_local base rp f) (Ok tt)
           :: listing_failure c share ((entry_remote rp f ++ "\") ++ "*") e)
        ++ snd (for_each rest (walk_body w (S fuel) c share rp base)
                  (h ++ EvMakedirs (entry_local base rp f) (Ok tt)
                     :: listing_failure c share
                          ((entry_remote rp f ++ "\") ++ "*") e))).
Proof.
  intros Hdot Hdir Hmk Hls.
  assert (E1 : spider_files w (S fuel) c share (entry_remote rp f ++ "\") base
                 (h ++ [EvMakedirs (entry_local base rp f) (Ok tt)])
               = (Done tt,
                  listing_failure c share ((entry_remote rp f ++ "\") ++ "*") e)).
  { simpl. unfold bind.
    destruct (list_files_cases w c share (entry_remote rp f ++ "\")
                (h ++ [EvMakedirs (entry_local base rp f) (Ok tt)]))
      as [(files & Hok & _) | (e' & Herr & ->)].
    - rewrite Hls in Hok. discriminate.
    - rewrite Hls in Herr. injection Herr as <-. reflexivity. }
  split; [exact E1|].
  apply for_each_cons_done.
  unfold walk_body, spider_entry. rewrite Hdot, Hdir.
  fold (entry_remote rp f). fold (entry_local base rp f).
  unfold bind, makedirs, call. rewrite Hmk, E1. reflexivity.
Qed.

Lemma announced_writes (local : string) (chunks : list (list byte)) :
  announced (map (EvWrite local) chunks) = [].
Proof. induction chunks; simpl; auto. Qed.

Lemma failed_call_writes (local : string) (chunks : list (list byte)) :
  existsb failed_call (map (EvWrite local) chunks) = false.
Proof. induction chunks; simpl; auto. Qed.

(** C7.  When a call made for the download of the file [f] fails, the
    failure is caught inside [download_file]: the download ends normally,
    the file is not announced as downloaded, an error line naming it is
    printed, and the loop goes on with the entries after [f].  Chunks written
    before the failure stay written. *)
Theorem C7_download_failure_is_local
    (fuel : nat) (c : SMBConnection) (share rp base : string)
    (f : SharedFile) (rest : list SharedFile) (h : history) :
  is_dot (get_longname f) = false ->
  is_directory f = false ->
  existsb failed_call
    (snd (download_file w c share (entry_remote rp f) (entry_local base rp f) h))
  = true ->
  fst (download_file w c share (entry_remote rp f) (entry_local base rp f) h)
  = Done tt
  /\ announced
       (snd (download_file w c share (entry_remote rp f) (entry_local base rp f) h))
     = []
  /\ (exists e,
        In (EvPrint (MsgErrorDownloading (entry_remote rp f) e))
           (snd (download_file w c share (entry_remote rp f)
                   (entry_local base rp f) h)))
  /\ for_each (f :: rest) (walk_body w fuel c share rp base) h
     = (fst (for_each rest (walk_body w fuel c share rp base)
               (h ++ snd (download_file w c share (entry_remote rp f)
                            (entry_local base rp f) h))),
        snd (download_file w c share (entry_remote rp f) (entry_local base rp f) h)
        ++ snd (for_each rest (walk_body w fuel c share rp base)
                  (h ++ snd (download_file w c share (entry_remote rp f)
                               (entry_local base rp f) h)))).
Proof.
  intros Hdot Hdir Hfail.
  pose proof (download_file_done w c share (entry_remote rp f)
                (entry_local base rp f) h) as Hdone.
  split; [exact Hdone|].
  assert (Hbody : walk_body w fuel c share rp base f h
                  = download_file w c share (entry_remote rp f)
                      (entry_local base rp f) h).
  { unfold walk_body, spider_entry. now rewrite Hdot, Hdir. }
  assert (Hloop : forall tr,
             download_file w c share (entry_remote rp f) (entry_local base rp f) h
             = (Done tt, tr) ->
             for_each (f :: rest) (walk_body w fuel c share rp base) h
             = (fst (for_each rest (walk_body w fuel c share rp base) (h ++ tr)),
                tr ++ snd (for_each rest (walk_body w fuel c share rp base)
                             (h ++ tr)))).
  { intros tr E. apply for_each_cons_done. now rewrite Hbody. }
  destruct (download_file w c share (entry_remote rp f) (entry_local base rp f) h)
    as [o tr] eqn:E.
  simpl in Hdone. subst o. simpl snd in *.
  split; [|split; [|now apply Hloop]].
  - revert E Hfail.
    unfold download_file, try_except, bind, makedirs, open_wb, getFile, call,
      print, emit.
    destruct (os_makedirs w h _) as [[]|e1];
      [|intros E; injection E as <-; reflexivity].
    destruct (os_open_wb w _ _) as [[]|e2];
      [|intros E; injection E as <-; reflexivity].
    destruct (smb_getFile w _ _ _ _) as [chunks [[]|e3]];
      intros E; injection E as <-; simpl.
    + rewrite existsb_app, failed_call_writes. discriminate.
    + intros _. unfold announced. rewrite flat_map_app. simpl.
      fold (announced (map (EvWrite (entry_local base rp f)) chunks)).
      now rewrite announced_writes.
  - revert E Hfail.
    unfold download_file, try_except, bind, makedirs, open_wb, getFile, call,
      print, emit.
    destruct (os_makedirs w h _) as [[]|e1];
      [|intros E; injection E as <-; intros _; exists e1; simpl; auto].
    destruct (os_open_wb w _ _) as [[]|e2];
      [|intros E; injection E as <-; intros _; exists e2; simpl; auto].
    destruct (smb_getFile w _ _ _ _) as [chunks [[]|e3]];
      intros E; injection E as <-; simpl.
    + rewrite existsb_app, failed_call_writes. discriminate.
    + intros _. exists e3. right. right. right.
      apply in_or_app. right. now left.
Qed.

End Walker.

(** ** Termination of the walk *)

Lemma emits_for_each_in {A} (P : event -> Prop) (xs : list A) (body : A -> M unit) :
  (forall x, In x xs -> emits P (body x)) -> emits P (for_each xs body).
Proof.
  induction xs as [|x xs IH]; simpl; intros H.
  - apply emits_ret.
  - apply emits_bind; [apply H; now left|].
    intros _. apply IH. intros y Hy. apply H. now right.
Qed.

Lemma append_star_inj (p q : string) :
  (p ++ "*")%string = (q ++ "*")%string -> p = q.
Proof.
  revert q. induction p as [|a p IH]; intros [|b q] E; simpl in E.
  - reflexivity.
  - injection E as _ E. destruct q; discriminate.
  - injection E as _ E. destruct p; discriminate.
  - injection E as -> E. f_equal. now apply IH.
Qed.

Section WalkEnds.

Variable w : World.
Variable rank : string -> nat.
Hypothesis listings_well_founded : well_founded_listing w rank.

Lemma spider_files_terminates (fuel : nat) (c : SMBConnection)
    (share rp base : string) :
  rank rp < fuel -> never_diverges (spider_files w fuel c share rp base).
Proof.
  revert rp. induction fuel as [|fuel IH]; intros rp Hlt h; [lia|].
  simpl. unfold bind.
  destruct (list_files_cases w c share rp h)
    as [(files & Hok & ->) | (e & Herr & ->)]; [|discriminate].
  assert (H : never_diverges
                (for_each files
                   (spider_entry w (spider_files w fuel) c share rp base))).
  { apply never_diverges_for_each. intros f Hin. unfold spider_entry.
    destruct (is_dot (get_longname f)) eqn:Edot; [apply never_diverges_ret|].
    destruct (is_directory f) eqn:Edir.
    - apply never_diverges_bind; [apply never_diverges_call|].
      intros _. apply IH.
      pose proof (listings_well_founded h (remote_host c) share rp files f
                    Hok Hin Edir Edot) as Hr.
      unfold child_remote_path in Hr. lia.
    - intros h'. rewrite download_file_done. discriminate. }
  specialize (H (h ++ [EvListPath (remote_host c) share (rp ++ "*") (Ok files)])).
  now destruct (for_each files _ _).
Qed.

Lemma spider_files_lists_within (fuel : nat) (c : SMBConnection)
    (share rp base : string) :
  emits (lists_within rank (rank rp)) (spider_files w fuel c share rp base).
Proof.
  revert rp. induction fuel as [|fuel IH]; intros rp h.
  { simpl. repeat constructor. simpl. exists rp. auto. }
  simpl. unfold bind.
  destruct (list_files_cases w c share rp h)
    as [(files & Hok & ->) | (e & Herr & ->)].
  - assert (H : emits (lists_within rank (rank rp))
                  (for_each files
                     (spider_entry w (spider_files w fuel) c share rp base))).
    { apply emits_for_each_in. intros f Hin. unfold spider_entry.
      destruct (is_dot (get_longname f)) eqn:Edot; [apply emits_ret|].
      destruct (is_directory f) eqn:Edir.
      - apply emits_bind; [apply emits_call; intros r; exact I|].
        intros _.
        pose proof (listings_well_founded h (remote_host c) share rp files f
                      Hok Hin Edir Edot) as Hr.
        unfold child_remote_path in Hr.
        eapply emits_weaken; [|apply IH].
        intros [] Hev; simpl in *; auto.
        destruct Hev as (q & -> & Hq). exists q. split; [reflexivity | lia].
      - apply emits_download_file. intros [] Hev; simpl in *; auto; discriminate. }
    specialize (H (h ++ [EvListPath (remote_host c) share (rp ++ "*") (Ok files)])).
    destruct (for_each files _ _) as [o t]. simpl in *.
    constructor; [|exact H]. simpl. exists rp. auto.
  - simpl. repeat constructor. simpl. exists rp. auto.
Qed.

(** The directory being walked is listed once, at the start, and not again
    from inside its own walk. *)
Lemma spider_files_lists_once (fuel : nat) (c : SMBConnection)
    (share rp base : string) (h : history) :
  exists tl,
    listed (snd (spider_files w (S fuel) c share rp base h))
    = (rp ++ "*")%string :: tl
    /\ ~ In (rp ++ "*")%string tl.
Proof.
  simpl. unfold bind.
  destruct (list_files_cases w c share rp h)
    as [(files & Hok & ->) | (e & Herr & ->)].
  - assert (H : emits (lists_elsewhere (rp ++ "*"))
                  (for_each files
                     (spider_entry w (spider_files w fuel) c share rp base))).
    { apply emits_for_each_in. intros f Hin. unfold spider_entry.
      destruct (is_dot (get_longname f)) eqn:Edot; [apply emits_ret|].
      destruct (is_directory f) eqn:Edir.
      - apply emits_bind; [apply emits_call; intros r; exact I|].
        intros _.
        pose proof (listings_well_founded h (remote_host c) share rp files f
                      Hok Hin Edir Edot) as Hr.
        unfold child_remote_path in Hr.
        eapply emits_weaken; [|apply spider_files_lists_within].
        intros [] Hev; simpl in *; auto.
        destruct Hev as (q & -> & Hq). intros E.
        apply append_star_inj in E. subst q. lia.
      - apply emits_download_file. intros [] Hev; simpl in *; auto; discriminate. }
    specialize (H (h ++ [EvListPath (remote_host c) share (rp ++ "*") (Ok files)])).
    destruct (for_each files _ _) as [o t]. simpl in *.
    exists (listed t). split; [reflexivity|].
    clear -H. induction t as [|ev t IH]; simpl; [tauto|].
    inversion H as [|? ? Hev Ht]; subst. intros Hin.
    apply in_app_or in Hin as [Hin|Hin]; [|now apply IH].
    destruct ev; simpl in Hin; try contradiction.
    destruct Hin as [Hin|[]]. now apply Hev.
  - exists []. simpl. auto.
Qed.

End WalkEnds.


(** ** The sweep *)

Section Sweep.

Variable w : World.

Lemma never_raises_spider_smb_shares (fuel : nat) (host username password : string) :
  never_raises (spider_smb_shares w fuel host username password).
Proof.
  unfold spider_smb_shares.
  apply never_raises_bind; [apply never_raises_emit|]. intros _.
  apply never_raises_try_except. intros e. apply never_raises_emit.
Qed.

Lemma try_triple_outcome (fuel : nat) (host username password : string)
    (h : history) :
  fst (try_triple w fuel [host; username; password] h) = Done tt
  \/ fst (try_triple w fuel [host; username; password] h) = Diverged.
Proof.
  assert (H : never_raises (try_triple w fuel [host; username; password])).
  { unfold try_triple. apply never_raises_bind; [apply never_raises_emit|].
    intros _. apply never_raises_spider_smb_shares. }
  specialize (H h).
  destruct (fst (try_triple w fuel [host; username; password] h)) as [[]|e|]; auto.
  now destruct (H e).
Qed.

(** C5.  When the login is refused, the triple leaves exactly five events:
    the announcement, the entry, the connection, the refused login and the
    error line naming host and user.  Nothing is created locally, no other
    call goes to the server, and the sweep goes on with the next triple.
    The hypotheses are the answers of the world at the moment of each call:
    [firstn k] of the trace is what the triple has done before it. *)
Theorem C5_login_failure_skips_triple
    (fuel : nat) (host username password : string) (e : exn)
    (rest : list (list string)) (h : history) :
  smb_connect w (h ++ firstn 2 (login_refused_trace host username password e)) host
  = Ok tt ->
  smb_login w (h ++ firstn 3 (login_refused_trace host username password e))
    host username password = Err e ->
  try_triple w fuel [host; username; password] h
  = (Done tt, login_refused_trace host username password e)
  /\ filter is_local_write (login_refused_trace host username password e) = []
  /\ filter is_remote_call (login_refused_trace host username password e)
     = [EvConnect host (Ok tt); EvLogin host username password (Err e)]
  /\ for_each ([host; username; password] :: rest) (try_triple w fuel) h
     = (fst (for_each rest (try_triple w fuel)
               (h ++ login_refused_trace host username password e)),
        login_refused_trace host username password e
        ++ snd (for_each rest (try_triple w fuel)
                  (h ++ login_refused_trace host username password e))).
Proof.
  intros Hc Hl. simpl in Hc, Hl.
  assert (E : try_triple w fuel [host; username; password] h
              = (Done tt, login_refused_trace host username password e)).
  { unfold try_triple, spider_smb_shares, SMBConnection_new, login, print, emit,
      call, bind, try_except.
    repeat rewrite <- app_assoc. simpl. rewrite Hc. simpl.
    repeat rewrite <- app_assoc. simpl. rewrite Hl. reflexivity. }
  split; [exact E|]. split; [reflexivity|]. split; [reflexivity|].
  now apply for_each_cons_done.
Qed.

(** C8.  When [listShares] succeeds with no share, the triple prints that no
    share was found and nothing else: no error line, and in particular not
    the line a failed share listing prints; nothing is created locally, and
    the sweep goes on with the next triple.  The hypotheses are the answers
    of the world at the moment of each call. *)
Theorem C8_no_share_is_reported_and_skipped
    (fuel : nat) (host username password : string)
    (rest : list (list string)) (h : history) :
  smb_connect w (h ++ firstn 2 (no_share_trace host username password)) host
  = Ok tt ->
  smb_login w (h ++ firstn 3 (no_share_trace host username password))
    host username password = Ok tt ->
  smb_listShares w (h ++ firstn 4 (no_share_trace host username password)) host
  = Ok [] ->
  try_triple w fuel [host; username; password] h
  = (Done tt, no_share_trace host username password)
  /\ In (EvPrint (MsgNoShares host username)) (no_share_trace host username password)
  /\ filter is_error_print (no_share_trace host username password) = []
  /\ (forall e, no_share_trace host username password
                <> share_listing_failed_trace host username password e)
  /\ filter is_local_write (no_share_trace host username password) = []
  /\ for_each ([host; username; password] :: rest) (try_triple w fuel) h
     = (fst (for_each rest (try_triple w fuel)
               (h ++ no_share_trace host username password)),
        no_share_trace host username password
        ++ snd (for_each rest (try_triple w fuel)
                  (h ++ no_share_trace host username password))).
Proof.
  intros Hc Hl Hs. simpl in Hc, Hl, Hs.
  assert (E : try_triple w fuel [host; username; password] h
              = (Done tt, no_share_trace host username password)).
  { unfold try_triple, spider_smb_shares, SMBConnection_new, login, list_shares,
      listShares, spider_listed_shares, print, emit, call, bind, try_except, ret.
    repeat rewrite <- app_assoc. simpl. rewrite Hc. simpl.
    repeat rewrite <- app_assoc. simpl. rewrite Hl. simpl.
    repeat rewrite <- app_assoc. simpl. rewrite Hs. reflexivity. }
  split; [exact E|].
  split; [simpl; tauto|]. split; [reflexivity|].
  split; [intros e' H; discriminate H|]. split; [reflexivity|].
  now apply for_each_cons_done.
Qed.

(** A failed share listing, for comparison with C8: the error line comes
    first, then the same line as for a host without shares. *)
Lemma share_listing_failure_is_reported
    (fuel : nat) (host username password : string) (e : exn) (h : history) :
  smb_connect w
    (h ++ firstn 2 (share_listing_failed_trace host username password e)) host
  = Ok tt ->
  smb_login w
    (h ++ firstn 3 (share_listing_failed_trace host username password e))
    host username password = Ok tt ->
  smb_listShares w
    (h ++ firstn 4 (share_listing_failed_trace host username password e)) host
  = Err e ->
  try_triple w fuel [host; username; password] h
  = (Done tt, share_listing_failed_trace host username password e).
Proof.
  intros Hc Hl Hs. simpl in Hc, Hl, Hs.
  unfold try_triple, spider_smb_shares, SMBConnection_new, login, list_shares,
    listShares, spider_listed_shares, print, emit, call, bind, try_except, ret.
  repeat rewrite <- app_assoc. simpl. rewrite Hc. simpl.
  repeat rewrite <- app_assoc. simpl. rewrite Hl. simpl.
  repeat rewrite <- app_assoc. simpl. rewrite Hs. reflexivity.
Qed.

End Sweep.

(** C3 fails on the code.  On a host that accepts the login and reports no
    share, [spider_smb_shares] returns at line 62, before the [logoff] of
    line 77: the session is opened and never logged off.  The same happens
    when creating a local directory raises: the handler of line 78 prints
    and does not log off. *)
Theorem C3_session_left_open :
  (fst (main no_share_world 3 ["10.0.0.5"] ["guest"] [""] []) = Done tt
   /\ In (EvLogin "10.0.0.5" "guest" "" (Ok tt))
         (snd (main no_share_world 3 ["10.0.0.5"] ["guest"] [""] []))
   /\ filter is_logoff (snd (main no_share_world 3 ["10.0.0.5"] ["guest"] [""] []))
      = [])
  /\ (fst (main read_only_world 3 ["10.0.0.5"] ["guest"] [""] []) = Done tt
      /\ In (EvLogin "10.0.0.5" "guest" "" (Ok tt))
            (snd (main read_only_world 3 ["10.0.0.5"] ["guest"] [""] []))
      /\ filter is_logoff
           (snd (main read_only_world 3 ["10.0.0.5"] ["guest"] [""] []))
         = [])
  /\ filter is_logoff (snd (main scenario_world 3 ["10.0.0.5"] ["guest"] [""] []))
     = [EvLogoff "10.0.0.5" (Ok tt)].
Proof.
  repeat split; try reflexivity; vm_compute; tauto.
Qed.

(** ** The order of the sweep *)

Lemma product_pairs (hosts usernames : list string) :
  flat_map (fun x => map (fun y => x ++ [y]) usernames)
           (map (fun y => [y]) hosts)
  = flat_map (fun h => map (fun u => [h; u]) usernames) hosts.
Proof.
  induction hosts as [|h hosts IH]; simpl; [reflexivity|]. now rewrite IH.
Qed.

Lemma product_row (h : string) (usernames passwords : list string) :
  flat_map (fun x => map (fun y => x ++ [y]) passwords)
           (map (fun u => [h; u]) usernames)
  = map triple_list
        (flat_map (fun u => map (fun p => (h, u, p)) passwords) usernames).
Proof.
  induction usernames as [|u usernames IH]; simpl; [reflexivity|].
  rewrite IH, map_app, map_map. reflexivity.
Qed.

(** [itertools.product] of three lists is the three nested loops. *)
Lemma product_three (hosts usernames passwords : list string) :
  product [hosts; usernames; passwords]
  = map triple_list (nested_triples hosts usernames passwords).
Proof.
  unfold product, nested_triples. simpl fold_left.
  rewrite app_nil_r.
  replace (map (fun y => [] ++ [y]) hosts) with (map (fun y : string => [y]) hosts)
    by reflexivity.
  rewrite product_pairs.
  induction hosts as [|h hosts IH]; simpl; [reflexivity|].
  rewrite flat_map_app, map_app, IH, product_row. reflexivity.
Qed.

Lemma length_nested_triples (hosts usernames passwords : list string) :
  length (nested_triples hosts usernames passwords)
  = length hosts * length usernames * length passwords.
Proof.
  unfold nested_triples.
  assert (R : forall h : string,
             length (flat_map (fun u => map (fun p => (h, u, p)) passwords) usernames)
             = length usernames * length passwords).
  { intros h. induction usernames as [|u us IH]; simpl; [reflexivity|].
    now rewrite length_app, length_map, IH. }
  induction hosts as [|h hosts IH]; simpl; [reflexivity|].
  rewrite length_app, R, IH. lia.
Qed.

Lemma attempts_app (a b : list event) :
  attempts (a ++ b) = attempts a ++ attempts b.
Proof. apply flat_map_app. Qed.

Lemma attempts_none (tr : list event) : Forall not_attempt tr -> attempts tr = [].
Proof.
  induction 1 as [|ev tr Hev _ IH]; [reflexivity|].
  unfold attempts in *. simpl. rewrite IH.
  destruct ev; simpl in *; try reflexivity. contradiction.
Qed.

Section SweepOrder.

Variable w : World.

Lemma emits_spider_share (P : event -> Prop) (fuel : nat) (c : SMBConnection)
    (host host_dir share : string) :
  P (EvPrint (MsgListingFiles share host)) ->
  (forall r, P (EvMakedirs (PosixPath.join host_dir share) r)) ->
  (forall ev, walker_event c share ev = true -> P ev) ->
  emits P (spider_share w fuel c host host_dir share).
Proof.
  intros H1 H2 H3. unfold spider_share, makedirs.
  apply emits_bind; [now apply emits_emit|]. intros _.
  apply emits_bind; [now apply emits_call|]. intros _.
  now apply emits_spider_files.
Qed.

Lemma walker_event_inner (c : SMBConnection) (share : string) (ev : event) :
  walker_event c share ev = true -> inner_event ev.
Proof.
  destruct ev as [| [] | | | | | | | | |]; simpl; intros H;
    try reflexivity; discriminate H.
Qed.

Lemma inner_event_not_attempt (ev : event) : inner_event ev -> not_attempt ev.
Proof. destruct ev; simpl; intros H; try exact I; discriminate H. Qed.

Lemma marks_none (tr : list event) : Forall inner_event tr -> marks tr = [].
Proof.
  induction 1 as [|ev tr Hev _ IH]; [reflexivity|].
  unfold marks in *. simpl. now rewrite Hev, IH.
Qed.

(** What follows the connection inside [spider_smb_shares] leaves no mark. *)
Lemma emits_after_connection (fuel : nat) (c : SMBConnection)
    (host username password : string) :
  emits inner_event
    (try_except
       (bind (login w c username password)
          (fun _ =>
             bind (list_shares w c)
               (fun shares => spider_listed_shares w fuel c host username shares)))
       (fun e => print (MsgErrorConnecting host username e))).
Proof.
  unfold login, list_shares, listShares, spider_listed_shares, makedirs, logoff.
  apply emits_try_except; [|intros e; now apply emits_emit].
  apply emits_bind; [repeat emits_step; reflexivity|]. intros _.
  apply emits_bind; [repeat emits_step; reflexivity|]. intros shares.
  destruct shares as [|s shares]; [now apply emits_emit|].
  apply emits_bind; [repeat emits_step; reflexivity|]. intros _.
  apply emits_bind; [|intros _; repeat emits_step; reflexivity].
  apply emits_for_each. intros share.
  apply emits_spider_share; try reflexivity; try (intros r; reflexivity).
  apply walker_event_inner.
Qed.

(** [spider_smb_shares] marks its entry, then tries to connect; nothing
    after that is an entry, a connection or an announcement. *)
Lemma spider_smb_shares_shape (fuel : nat) (host username password : string)
    (h : history) :
  exists r t,
    snd (spider_smb_shares w fuel host username password h)
    = EvAttempt host username password :: EvConnect host r :: t
    /\ Forall inner_event t.
Proof.
  unfold spider_smb_shares.
  rewrite (bind_done (emit (EvAttempt host username password)) _ h tt
             [EvAttempt host username password] eq_refl).
  cbn [snd app].
  destruct (smb_connect w (h ++ [EvAttempt host username password]) host)
    as [[]|e] eqn:Ec.
  - rewrite (try_except_bind_done (SMBConnection_new w host) _ _ _ (conn host)
               [EvConnect host (Ok tt)]).
    2:{ unfold SMBConnection_new, bind, call, ret. now rewrite Ec. }
    cbn [snd app].
    exists (Ok tt). eexists. split; [reflexivity|].
    apply (emits_after_connection fuel (conn host) host username password).
  - rewrite (try_except_bind_raised (SMBConnection_new w host) _ _ _ e
               [EvConnect host (Err e)]).
    2:{ unfold SMBConnection_new, bind, call. now rewrite Ec. }
    cbn [snd app print emit].
    exists (Err e). eexists. split; [reflexivity|].
    repeat constructor.
Qed.

Lemma try_triple_shape (fuel : nat) (host username password : string)
    (h : history) :
  exists r t,
    snd (try_triple w fuel [host; username; password] h)
    = EvPrint (MsgTrying host username)
        :: EvAttempt host username password :: EvConnect host r :: t
    /\ Forall inner_event t.
Proof.
  unfold try_triple.
  rewrite (bind_done (print (MsgTrying host username)) _ h tt
             [EvPrint (MsgTrying host username)] eq_refl).
  cbn [snd app].
  destruct (spider_smb_shares_shape fuel host username password
              (h ++ [EvPrint (MsgTrying host username)])) as (r & t & -> & Ht).
  now exists r, t.
Qed.

Lemma try_triple_attempts (fuel : nat) (host username password : string)
    (h : history) :
  attempts (snd (try_triple w fuel [host; username; password] h))
  = [(host, username, password)].
Proof.
  destruct (try_triple_shape fuel host username password h) as (r & t & -> & Ht).
  unfold attempts. simpl. f_equal.
  apply attempts_none. eapply Forall_impl; [|exact Ht].
  apply inner_event_not_attempt.
Qed.

Lemma try_triple_marks (fuel : nat) (host username password : string)
    (h : history) :
  marks (snd (try_triple w fuel [host; username; password] h))
  = triple_marks (host, username, password).
Proof.
  destruct (try_triple_shape fuel host username password h) as (r & t & -> & Ht).
  unfold marks, triple_marks. simpl. do 3 f_equal.
  now apply marks_none.
Qed.

(** Whatever the world does, the triples are gone through in the order of
    the list; a walk that does not end cuts the sweep short.  [view] is what
    is read off the trace and [per_triple] what each triple must leave. *)
Lemma sweep_in_order {X} (view : event -> list X)
    (per_triple : string * string * string -> list X) (fuel : nat) :
  (forall host username password h,
      flat_map view (snd (try_triple w fuel [host; username; password] h))
      = per_triple (host, username, password)) ->
  forall (l : list (string * string * string)) h,
    (fst (for_each (map triple_list l) (try_triple w fuel) h) = Done tt
     /\ flat_map view (snd (for_each (map triple_list l) (try_triple w fuel) h))
        = flat_map per_triple l)
    \/ (fst (for_each (map triple_list l) (try_triple w fuel) h) = Diverged
        /\ exists rest,
             flat_map per_triple l
             = flat_map view
                 (snd (for_each (map triple_list l) (try_triple w fuel) h))
               ++ rest).
Proof.
  intros Hview.
  induction l as [|[[host username] password] l IH]; intros h.
  - left. split; reflexivity.
  - change (map triple_list ((host, username, password) :: l))
      with ([host; username; password] :: map triple_list l).
    rewrite for_each_cons. unfold bind.
    pose proof (try_triple_outcome w fuel host username password h) as Ho.
    pose proof (Hview host username password h) as Ha.
    destruct (try_triple w fuel [host; username; password] h) as [o t1].
    simpl in Ho, Ha. destruct Ho as [-> | ->].
    + specialize (IH (h ++ t1)).
      destruct (for_each (map triple_list l) (try_triple w fuel) (h ++ t1))
        as [o2 t2]. simpl in *.
      rewrite flat_map_app, Ha.
      destruct IH as [[-> ->] | [-> [rest Hrest]]].
      * left. auto.
      * right. split; [reflexivity|]. exists rest.
        now rewrite Hrest, app_assoc.
    + right. simpl. split; [reflexivity|].
      exists (flat_map per_triple l). now rewrite Ha.
Qed.

Lemma flat_map_singleton {X} (l : list X) : flat_map (fun x => [x]) l = l.
Proof. induction l as [|x l IH]; simpl; congruence. Qed.

(** The sweep always reaches its end. *)
Lemma main_returns (fuel : nat) (hosts usernames passwords : list string) :
  never_diverges (main w fuel hosts usernames passwords).
Proof.
  unfold main.
  apply never_diverges_for_each. intros t _. unfold try_triple.
  destruct t as [|host [|username [|password [|x t]]]]; try (intros h; discriminate).
  apply never_diverges_bind; [apply never_diverges_emit|]. intros _.
  unfold spider_smb_shares, SMBConnection_new, login, list_shares, listShares,
    spider_listed_shares, makedirs, logoff.
  apply never_diverges_bind; [apply never_diverges_emit|]. intros _.
  apply never_diverges_try_except; [|intros e; apply never_diverges_emit].
  apply never_diverges_bind; [repeat never_diverges_step|]. intros c.
  apply never_diverges_bind; [repeat never_diverges_step|]. intros _.
  apply never_diverges_bind; [repeat never_diverges_step|]. intros shares.
  destruct shares as [|s shares]; [apply never_diverges_emit|].
  apply never_diverges_bind; [repeat never_diverges_step|]. intros _.
  apply never_diverges_bind; [|intros _; repeat never_diverges_step].
  apply never_diverges_for_each. intros share _. unfold spider_share, makedirs.
  apply never_diverges_bind; [apply never_diverges_emit|]. intros _.
  apply never_diverges_bind; [apply never_diverges_call|]. intros _.
  apply spider_files_returns.
Qed.

(** C4.  The sweep reaches its end on every server and every three lists,
    and the triples it entered are those of the three nested loops, host
    outermost and password innermost, each as often as the loops produce
    it: as many as the product of the three lengths, duplicates included.
    For each of them, in that order, one line is printed,
    [spider_smb_shares] is entered and one connection is attempted.  No
    triple makes the sweep raise or stop, whatever its server answers. *)
Theorem C4_sweep_is_the_cartesian_product
    (fuel : nat) (hosts usernames passwords : list string) (h : history) :
  fst (main w fuel hosts usernames passwords h) = Done tt
  /\ attempts (snd (main w fuel hosts usernames passwords h))
     = nested_triples hosts usernames passwords
  /\ length (attempts (snd (main w fuel hosts usernames passwords h)))
     = length hosts * length usernames * length passwords
  /\ marks (snd (main w fuel hosts usernames passwords h))
     = flat_map triple_marks (nested_triples hosts usernames passwords).
Proof.
  pose proof (main_returns fuel hosts usernames passwords h) as Hnd.
  unfold main in *. rewrite product_three in *.
  destruct (sweep_in_order
              (fun ev => match ev with
                         | EvAttempt a b c => [(a, b, c)]
                         | _ => []
                         end)
              (fun t => [t]) fuel
              (try_triple_attempts fuel)
              (nested_triples hosts usernames passwords) h)
    as [[Ho Ha] | [Ho _]]; [|contradiction].
  destruct (sweep_in_order mark_of triple_marks fuel (try_triple_marks fuel)
              (nested_triples hosts usernames passwords) h)
    as [[_ Hm] | [Ho' _]]; [|contradiction].
  rewrite flat_map_singleton in Ha.
  unfold attempts, marks. rewrite Ha, length_nested_triples. auto.
Qed.

(** The triples entered are the first of the nested loops, in order. *)
Lemma sweep_attempts_prefix
    (fuel : nat) (hosts usernames passwords : list string) (h : history) :
  exists rest,
    nested_triples hosts usernames passwords
    = attempts (snd (main w fuel hosts usernames passwords h)) ++ rest.
Proof.
  unfold main. rewrite product_three.
  destruct (sweep_in_order
              (fun ev => match ev with
                         | EvAttempt a b c => [(a, b, c)]
                         | _ => []
                         end)
              (fun t => [t]) fuel
              (try_triple_attempts fuel)
              (nested_triples hosts usernames passwords) h)
    as [[_ Ha] | [_ [rest Ha]]]; rewrite flat_map_singleton in Ha.
  - exists []. unfold attempts. now rewrite Ha, app_nil_r.
  - now exists rest.
Qed.

End SweepOrder.

(** ** Share names *)

Lemma split_around (x y : event) (A B tl pre post : list event) :
  tl = pre ++ x :: y :: post ->
  A ++ tl ++ B = (A ++ pre) ++ x :: y :: (post ++ B).
Proof. intros ->. now rewrite <- !app_assoc. Qed.

Lemma share_directory_of_empty_name (host : string) :
  share_directory host "" = dir_prefix (host_directory host)
  /\ PosixPath.components (share_directory host "")
     = PosixPath.components (host_directory host).
Proof.
  assert (E : share_directory host "" = dir_prefix (host_directory host)).
  { unfold share_directory. rewrite join_relative by reflexivity.
    apply append_empty_r. }
  split; [exact E|].
  rewrite E, <- (append_empty_r (dir_prefix (host_directory host))).
  rewrite components_dir_prefix. apply app_nil_r.
Qed.

Section ShareNames.

Variable w : World.

Lemma walker_event_uses_share (c : SMBConnection) (share : string)
    (names : list string) (ev : event) :
  In share names -> walker_event c share ev = true -> uses_share_of names ev.
Proof.
  intros Hin. unfold uses_share_of.
  destruct ev as [| [] | | | | | | | | |]; simpl; auto; try discriminate;
    intros H; apply andb_prop in H as [_ H]; apply String.eqb_eq in H; now subst.
Qed.

(** The walk of one share starts by announcing it and creating its local
    directory; the rest is the walker's. *)
Lemma spider_share_shape (fuel : nat) (c : SMBConnection)
    (host host_dir share : string) (h : history) :
  exists r rest,
    snd (spider_share w fuel c host host_dir share h)
    = EvPrint (MsgListingFiles share host)
        :: EvMakedirs (PosixPath.join host_dir share) r :: rest
    /\ Forall (fun ev => walker_event c share ev = true) rest.
Proof.
  unfold spider_share, bind, print, emit, makedirs, call.
  destruct (os_makedirs w _ (PosixPath.join host_dir share)) as [[]|e].
  - pose proof (emits_spider_files w (fun ev => walker_event c share ev = true)
                  fuel c share (fun ev H => H) "" (PosixPath.join host_dir share)
                  ((h ++ [EvPrint (MsgListingFiles share host)])
                   ++ [EvMakedirs (PosixPath.join host_dir share) (Ok tt)])) as H.
    destruct (spider_files w fuel c share "" _ _) as [o t]. simpl in *.
    exists (Ok tt), t. auto.
  - exists (Err e), []. simpl. auto.
Qed.

Lemma share_loop_dirs (fuel : nat) (c : SMBConnection) (host host_dir : string)
    (names : list string) :
  forall h s,
    In (EvPrint (MsgListingFiles s host))
       (snd (for_each names (spider_share w fuel c host host_dir) h)) ->
    exists pre r post,
      snd (for_each names (spider_share w fuel c host host_dir) h)
      = pre ++ EvPrint (MsgListingFiles s host)
            :: EvMakedirs (PosixPath.join host_dir s) r :: post.
Proof.
  induction names as [|n names IH]; intros h s Hin; [contradiction|].
  rewrite for_each_cons in *. unfold bind in *.
  destruct (spider_share_shape fuel c host host_dir n h) as (r & rest & E & Hw).
  destruct (spider_share w fuel c host host_dir n h) as [o t1].
  simpl in E. subst t1.
  assert (Hhere : forall tl,
             In (EvPrint (MsgListingFiles s host))
                ((EvPrint (MsgListingFiles n host)
                    :: EvMakedirs (PosixPath.join host_dir n) r :: rest) ++ tl) ->
             s = n \/ In (EvPrint (MsgListingFiles s host)) tl).
  { intros tl H. simpl in H. destruct H as [H|[H|H]].
    - injection H as ->. now left.
    - discriminate.
    - apply in_app_or in H as [H|H]; [|now right].
      rewrite Forall_forall in Hw. apply Hw in H. discriminate. }
  destruct o as [[]|e|].
  - specialize (IH (h ++ EvPrint (MsgListingFiles n host)
                      :: EvMakedirs (PosixPath.join host_dir n) r :: rest) s).
    destruct (for_each names _ _) as [o2 t2]. simpl in *.
    destruct (Hhere t2) as [-> | Hin2].
    { simpl. exact Hin. }
    + exists [], r, (rest ++ t2). reflexivity.
    + destruct (IH Hin2) as (pre & r' & post & ->).
      exists (EvPrint (MsgListingFiles n host)
                :: EvMakedirs (PosixPath.join host_dir n) r :: rest ++ pre), r', post.
      simpl. now rewrite <- app_assoc.
  - simpl in *. destruct (Hhere []) as [-> | []].
    { now rewrite app_nil_r. }
    exists [], r, rest. reflexivity.
  - simpl in *. destruct (Hhere []) as [-> | []].
    { now rewrite app_nil_r. }
    exists [], r, rest. reflexivity.
Qed.

Lemma emits_listed_shares (fuel : nat) (c : SMBConnection)
    (host username : string) (names : list string) :
  emits (uses_share_of names)
    (try_except (spider_listed_shares w fuel c host username names)
       (fun e => print (MsgErrorConnecting host username e))).
Proof.
  apply emits_try_except; [|intros e; now apply emits_emit].
  unfold spider_listed_shares, makedirs, logoff.
  destruct names as [|n names]; [now apply emits_emit|].
  apply emits_bind; [apply emits_call; intros r; exact I|]. intros _.
  apply emits_bind; [|intros _; apply emits_call; intros r; exact I].
  apply emits_for_each_in. intros share Hin.
  apply emits_spider_share.
  - exact Hin.
  - intros r. exact I.
  - intros ev. now apply walker_event_uses_share.
Qed.

Lemma listed_shares_dirs (fuel : nat) (c : SMBConnection)
    (host username : string) (names : list string) (h : history) (s : string) :
  In (EvPrint (MsgListingFiles s host))
     (snd (try_except (spider_listed_shares w fuel c host username names)
             (fun e => print (MsgErrorConnecting host username e)) h)) ->
  exists pre r post,
    snd (try_except (spider_listed_shares w fuel c host username names)
           (fun e => print (MsgErrorConnecting host username e)) h)
    = pre ++ EvPrint (MsgListingFiles s host)
          :: EvMakedirs (share_directory host s) r :: post.
Proof.
  unfold try_except, spider_listed_shares.
  destruct names as [|n names].
  { simpl. intros [H|[]]. discriminate. }
  unfold bind, makedirs, logoff, call, print, emit.
  destruct (os_makedirs w h (PosixPath.join "output" host)) as [[]|e].
  2:{ simpl. intros [H|[H|[]]]; discriminate. }
  pose proof (share_loop_dirs fuel c host (PosixPath.join "output" host)
                (n :: names)
                (h ++ [EvMakedirs (PosixPath.join "output" host) (Ok tt)]) s) as HL.
  destruct (for_each (n :: names) _ _) as [o tl]. simpl snd in HL.
  assert (Hmid : forall A B,
             Forall (fun ev => share_used ev = None) A ->
             Forall (fun ev => share_used ev = None) B ->
             In (EvPrint (MsgListingFiles s host)) (A ++ tl ++ B) ->
             exists pre r post,
               A ++ tl ++ B
               = pre ++ EvPrint (MsgListingFiles s host)
                     :: EvMakedirs (share_directory host s) r :: post).
  { intros A B HA HB Hin.
    apply in_app_or in Hin as [Hin|Hin].
    { rewrite Forall_forall in HA. apply HA in Hin. discriminate. }
    apply in_app_or in Hin as [Hin|Hin].
    2:{ rewrite Forall_forall in HB. apply HB in Hin. discriminate. }
    destruct (HL Hin) as (pre & r & post & E).
    exists (A ++ pre), r, (post ++ B). now apply split_around. }
  destruct o as [[]|e|].
  - destruct (smb_logoff w _ (remote_host c)) as [[]|e]; simpl snd.
    + apply (Hmid [EvMakedirs (PosixPath.join "output" host) (Ok tt)]
                  [EvLogoff (remote_host c) (Ok tt)]); auto.
    + rewrite <- ?app_assoc.
      apply (Hmid [EvMakedirs (PosixPath.join "output" host) (Ok tt)]
                  [EvLogoff (remote_host c) (Err e);
                   EvPrint (MsgErrorConnecting host username e)]); auto.
  - simpl snd. rewrite <- ?app_assoc.
    apply (Hmid [EvMakedirs (PosixPath.join "output" host) (Ok tt)]
                [EvPrint (MsgErrorConnecting host username e)]); auto.
  - simpl snd. rewrite <- (app_nil_r tl).
    apply (Hmid [EvMakedirs (PosixPath.join "output" host) (Ok tt)] []); auto.
Qed.

(** What [spider_smb_shares] does once the session is open and the shares
    are listed. *)
Lemma spider_smb_shares_opening
    (fuel : nat) (host username password : string) (infos : list ShareInfo)
    (h : history) :
  smb_connect w (h ++ firstn 1 (session_opening host username password infos)) host
  = Ok tt ->
  smb_login w (h ++ firstn 2 (session_opening host username password infos))
    host username password = Ok tt ->
  smb_listShares w (h ++ firstn 3 (session_opening host username password infos))
    host = Ok infos ->
  spider_smb_shares w fuel host username password h
  = (fst (try_except
            (spider_listed_shares w fuel (conn host) host username
               (stripped_names infos))
            (fun e => print (MsgErrorConnecting host username e))
            (h ++ session_opening host username password infos)),
     session_opening host username password infos
     ++ snd (try_except
               (spider_listed_shares w fuel (conn host) host username
                  (stripped_names infos))
               (fun e => print (MsgErrorConnecting host username e))
               (h ++ session_opening host username password infos))).
Proof.
  intros Hc Hl Hs. simpl in Hc, Hl, Hs.
  unfold spider_smb_shares.
  rewrite (bind_done (emit (EvAttempt host username password)) _ h tt
             [EvAttempt host username password] eq_refl).
  rewrite (try_except_bind_done (SMBConnection_new w host) _ _ _ (conn host)
             [EvConnect host (Ok tt)]).
  2:{ unfold SMBConnection_new, bind, call, ret. now rewrite Hc. }
  rewrite (try_except_bind_done (login w (conn host) username password) _ _ _ tt
             [EvLogin host username password (Ok tt)]).
  2:{ unfold login, call. simpl. rewrite <- app_assoc. simpl. now rewrite Hl. }
  rewrite (try_except_bind_done (list_shares w (conn host)) _ _ _
             (stripped_names infos) [EvListShares host (Ok infos)]).
  2:{ unfold list_shares, listShares, try_except, bind, call, ret. simpl.
      repeat rewrite <- app_assoc. simpl. now rewrite Hs. }
  simpl fst. simpl snd. repeat rewrite <- app_assoc. reflexivity.
Qed.

Lemma stripped_names_remove_last (infos : list ShareInfo) :
  Forall2 (fun info name => last_character_removed (shi1_netname info) name)
    infos (stripped_names infos).
Proof.
  induction infos as [|info infos IH]; constructor; [|exact IH].
  apply strip_last_spec.
Qed.


End ShareNames.

(** ** Concrete runs *)

Lemma scenario_well_founded : well_founded_listing scenario_world scenario_rank.
Proof.
  intros h host share rp files f Hok Hin Hdir Hdot.
  simpl in Hok. unfold scenario_listing in Hok.
  destruct ((rp ++ "*") =? "*")%string eqn:E1.
  - apply String.eqb_eq in E1.
    apply (append_star_inj rp "") in E1. subst rp.
    injection Hok as <-.
    simpl in Hin. destruct Hin as [<-|[<-|[<-|[<-|[]]]]]; try discriminate.
    vm_compute. lia.
  - destruct ((rp ++ "*") =? "docs\*")%string; [|discriminate].
    injection Hok as <-.
    simpl in Hin. destruct Hin as [<-|[<-|[<-|[]]]]; discriminate.
Qed.

(** In the scenario of the specification the walk opens the local paths the
    path mapping gives, and the sweep logs off once. *)
Example scenario_run :
  fst (main scenario_world 2 ["10.0.0.5"] ["guest"] [""] []) = Done tt
  /\ In (EvOpen (entity_local_path "10.0.0.5" "public" ["docs"] "a.txt") (Ok tt))
        (snd (main scenario_world 2 ["10.0.0.5"] ["guest"] [""] []))
  /\ In (EvOpen (entity_local_path "10.0.0.5" "public" [] "readme.txt") (Ok tt))
        (snd (main scenario_world 2 ["10.0.0.5"] ["guest"] [""] []))
  /\ announced (snd (main scenario_world 2 ["10.0.0.5"] ["guest"] [""] []))
     = ["docs//a.txt"; "readme.txt"]%string.
Proof. repeat split; vm_compute; tauto. Qed.

(** A server that names a file [\tmp\owned] makes the script write
    [/tmp/owned]. *)
Example hostile_name_escapes :
  In (EvOpen "/tmp/owned" (Ok tt))
     (snd (main hostile_world 2 ["10.0.0.5"] ["guest"] [""] [])).
Proof. vm_compute. tauto. Qed.

Lemma listed_app (a b : list event) : listed (a ++ b) = listed a ++ listed b.
Proof. apply flat_map_app. Qed.

(** Against a server that reports a directory [X] inside every directory,
    the walk nests as deep as it is allowed to, whatever that is, and then
    returns: nothing but the limit stops it. *)
Lemma self_child_nests_to_the_limit (fuel : nat) :
  forall rp h,
    fst (spider_files self_child_world fuel (conn "10.0.0.5") "public" rp
           "output/10.0.0.5/public" h) = Done tt
    /\ length (listed (snd (spider_files self_child_world fuel (conn "10.0.0.5")
                              "public" rp "output/10.0.0.5/public" h)))
       = S fuel.
Proof.
  induction fuel as [|fuel IH]; intros rp h; [split; reflexivity|].
  change (spider_files self_child_world (S fuel) (conn "10.0.0.5") "public" rp
            "output/10.0.0.5/public")
    with (bind (list_files self_child_world (conn "10.0.0.5") "public" rp)
            (fun files =>
               for_each files
                 (walk_body self_child_world fuel (conn "10.0.0.5") "public" rp
                    "output/10.0.0.5/public"))).
  destruct (list_files_cases self_child_world (conn "10.0.0.5") "public" rp h)
    as [(files & Hok & E) | (e & Herr & _)]; [|discriminate Herr].
  injection Hok as <-.
  rewrite (bind_done _ _ _ _ _ E). cbn [fst snd].
  set (h1 := h ++ _).
  assert (Hbody :
            walk_body self_child_world fuel (conn "10.0.0.5") "public" rp
              "output/10.0.0.5/public" (dir "X") h1
            = (fst (spider_files self_child_world fuel (conn "10.0.0.5") "public"
                      (entry_remote rp (dir "X") ++ "\")
                      "output/10.0.0.5/public"
                      (h1 ++ [EvMakedirs
                                (entry_local "output/10.0.0.5/public" rp (dir "X"))
                                (Ok tt)])),
               [EvMakedirs (entry_local "output/10.0.0.5/public" rp (dir "X"))
                  (Ok tt)]
               ++ snd (spider_files self_child_world fuel (conn "10.0.0.5")
                         "public" (entry_remote rp (dir "X") ++ "\")
                         "output/10.0.0.5/public"
                         (h1 ++ [EvMakedirs
                                   (entry_local "output/10.0.0.5/public" rp
                                      (dir "X")) (Ok tt)])))).
  { unfold walk_body, spider_entry.
    change (is_dot (get_longname (dir "X"))) with false.
    change (is_directory (dir "X")) with true. cbv iota.
    exact (bind_done
             (makedirs self_child_world
                (entry_local "output/10.0.0.5/public" rp (dir "X")))
             (fun _ =>
                spider_files self_child_world fuel (conn "10.0.0.5") "public"
                  (entry_remote rp (dir "X") ++ "\") "output/10.0.0.5/public")
             h1 tt _ eq_refl). }
  destruct (IH (entry_remote rp (dir "X") ++ "\")%string
              (h1 ++ [EvMakedirs
                        (entry_local "output/10.0.0.5/public" rp (dir "X"))
                        (Ok tt)])) as [Ho Hl].
  rewrite Ho in Hbody.
  rewrite (for_each_cons_done _ _ _ _ _ Hbody). cbn [fst snd for_each ret].
  split; [reflexivity|].
  rewrite !listed_app. cbn [listed flat_map app].
  rewrite app_nil_r. simpl length. now rewrite Hl.
Qed.



(** The sweep goes on past a host whose directories hold themselves. *)
Example sweep_goes_on_past_a_self_containing_directory :
  fst (main self_child_world 3 ["10.0.0.5"; "10.0.0.6"] ["guest"] [""] [])
  = Done tt
  /\ attempts (snd (main self_child_world 3 ["10.0.0.5"; "10.0.0.6"]
                      ["guest"] [""] []))
     = [("10.0.0.5", "guest", ""); ("10.0.0.6", "guest", "")]%string.
Proof. split; reflexivity. Qed.

Lemma C5_login_failure_skips_triple_witness :
  try_triple login_refused_world 2 ["10.0.0.5"; "guest"; ""] []
  = (Done tt, login_refused_trace "10.0.0.5" "guest" "" "STATUS_LOGON_FAILURE").
Proof.
  apply (C5_login_failure_skips_triple login_refused_world 2 "10.0.0.5" "guest" ""
           "STATUS_LOGON_FAILURE" [] []); reflexivity.
Defined.

Lemma C6_listing_failure_is_local_witness :
  spider_files denied_world 2 (conn "10.0.0.5") "public"
    (entry_remote "" (dir "private") ++ "\")%string "output/10.0.0.5/public"
    [EvMakedirs (entry_local "output/10.0.0.5/public" "" (dir "private")) (Ok tt)]
  = (Done tt,
     listing_failure (conn "10.0.0.5") "public"
       ((entry_remote "" (dir "private") ++ "\") ++ "*")%string
       "STATUS_ACCESS_DENIED").
Proof.
  apply (C6_listing_failure_is_local denied_world 1 (conn "10.0.0.5") "public" ""
           "output/10.0.0.5/public" (dir "private")
           [dir "docs"; file "readme.txt"] [] "STATUS_ACCESS_DENIED");
    reflexivity.
Defined.

Lemma C7_download_failure_is_local_witness :
  announced
    (snd (download_file broken_world (conn "10.0.0.5") "public"
            (entry_remote "" (file "big.bin"))
            (entry_local "output/10.0.0.5/public" "" (file "big.bin")) []))
  = [].
Proof.
  apply (C7_download_failure_is_local broken_world 1 (conn "10.0.0.5") "public" ""
           "output/10.0.0.5/public" (file "big.bin") [file "small.txt"] []);
    reflexivity.
Defined.

(** After the broken transfer the chunk already written stays, and the next
    file is downloaded. *)
Example broken_transfer_run :
  In (EvWrite "output/10.0.0.5/public/big.bin" (list_byte_of_string "part"))
     (snd (spider_files broken_world 1 (conn "10.0.0.5") "public" ""
             "output/10.0.0.5/public" []))
  /\ announced (snd (spider_files broken_world 1 (conn "10.0.0.5") "public" ""
                       "output/10.0.0.5/public" []))
     = ["small.txt"]%string.
Proof. split; vm_compute; tauto. Qed.

Lemma C8_no_share_is_reported_and_skipped_witness :
  try_triple no_share_world 2 ["10.0.0.5"; "guest"; ""] []
  = (Done tt, no_share_trace "10.0.0.5" "guest" "").
Proof.
  apply (C8_no_share_is_reported_and_skipped no_share_world 2 "10.0.0.5" "guest" ""
           [] []); reflexivity.
Defined.


(** * Further properties of the script *)

(** ** Reading the input files *)

Section InputFiles.

Lemma lstrip_first (s : string) (c : ascii) :
  first_char (lstrip s) = Some c -> is_space c = false.
Proof.
  induction s as [|x s IH]; simpl; [discriminate|].
  destruct (is_space x) eqn:E; [exact IH|].
  simpl. intros H. injection H as <-. exact E.
Qed.

Lemma rstrip_empty (s : string) : rstrip s = ""%string -> all_space s = true.
Proof.
  destruct s as [|x s]; [reflexivity|].
  simpl. destruct (is_space x && all_space s); [reflexivity | discriminate].
Qed.

Lemma rstrip_last (s : string) (c : ascii) :
  last_char (rstrip s) = Some c -> is_space c = false.
Proof.
  induction s as [|x s IH]; [discriminate|].
  change (rstrip (String x s))
    with (if is_space x && all_space s then ""%string else String x (rstrip s)).
  destruct (is_space x && all_space s) eqn:E; [discriminate|].
  simpl. destruct (rstrip s) eqn:Er.
  - intros H. injection H as <-.
    apply rstrip_empty in Er. rewrite Er, andb_true_r in E. exact E.
  - exact IH.
Qed.

Lemma rstrip_first (s : string) :
  (forall c, first_char s = Some c -> is_space c = false) ->
  first_char (rstrip s) = first_char s.
Proof.
  destruct s as [|x s]; [reflexivity|]. intros H.
  change (rstrip (String x s))
    with (if is_space x && all_space s then ""%string else String x (rstrip s)).
  now rewrite (H x eq_refl).
Qed.

Lemma strip_trimmed (s : string) : trimmed (strip s).
Proof.
  unfold trimmed, strip. split.
  - intros c. rewrite rstrip_first by apply lstrip_first. apply lstrip_first.
  - apply rstrip_last.
Qed.

Lemma all_space_last (s : string) (c : ascii) :
  last_char s = Some c -> is_space c = false -> all_space s = false.
Proof.
  induction s as [|x s IH]; [discriminate|].
  simpl. destruct s as [|y s].
  - intros H Hc. injection H as <-. now rewrite Hc.
  - intros H Hc. rewrite (IH H Hc). apply andb_false_r.
Qed.

Lemma last_char_some (x : ascii) (s : string) :
  exists c, last_char (String x s) = Some c.
Proof.
  revert x. induction s as [|y s IH]; intros x.
  - now exists x.
  - destruct (IH y) as [c Hc]. exists c. exact Hc.
Qed.

Lemma rstrip_id (s : string) :
  (forall c, last_char s = Some c -> is_space c = false) -> rstrip s = s.
Proof.
  induction s as [|x s IH]; [reflexivity|]. intros H.
  change (rstrip (String x s))
    with (if all_space (String x s) then ""%string else String x (rstrip s)).
  destruct (last_char_some x s) as [c El].
  rewrite (all_space_last _ c El (H c El)). f_equal.
  destruct s as [|y s]; [reflexivity|].
  apply IH. intros c' Hc'. apply H. exact Hc'.
Qed.

Lemma lstrip_id (s : string) :
  (forall c, first_char s = Some c -> is_space c = false) -> lstrip s = s.
Proof.
  destruct s as [|x s]; [reflexivity|]. intros H.
  simpl. now rewrite (H x eq_refl).
Qed.

Lemma strip_id (s : string) : trimmed s -> strip s = s.
Proof.
  intros [H1 H2]. unfold strip. rewrite (lstrip_id s H1). now apply rstrip_id.
Qed.

Lemma lstrip_all_space (s : string) : all_space s = true -> lstrip s = ""%string.
Proof.
  induction s as [|x s IH]; [reflexivity|].
  simpl. intros H. apply andb_prop in H as [Hx Hs]. now rewrite Hx, IH.
Qed.

Lemma all_space_lstrip (s : string) :
  all_space (lstrip s) = true -> all_space s = true.
Proof.
  induction s as [|x s IH]; [reflexivity|].
  simpl. destruct (is_space x) eqn:E; [exact IH|].
  simpl. now rewrite E.
Qed.

Lemma strip_blank (s : string) : strip s = ""%string <-> all_space s = true.
Proof.
  unfold strip. split.
  - intros H. apply rstrip_empty in H. now apply all_space_lstrip.
  - intros H. now rewrite lstrip_all_space.
Qed.

(** Every entry read from an input file has no whitespace at either end,
    stripping it again changes nothing, and it is empty exactly when its
    line is blank; no line is dropped. *)
Theorem read_list_strips_every_line (lines : list string) :
  Forall trimmed (read_list lines)
  /\ Forall (fun x => strip x = x) (read_list lines)
  /\ length (read_list lines) = length lines
  /\ Forall2 (fun line x => x = ""%string <-> all_space line = true)
       lines (read_list lines).
Proof.
  unfold read_list. repeat split.
  - apply Forall_map, Forall_forall. intros x _. apply strip_trimmed.
  - apply Forall_map, Forall_forall. intros x _. apply strip_id, strip_trimmed.
  - apply length_map.
  - induction lines as [|l lines IH]; simpl; constructor; auto.
    apply strip_blank.
Qed.

End InputFiles.

(** ** Where the files go *)

Section LocalDirectories.

Lemma all_sep_append (a b : string) :
  all_sep (a ++ b) = all_sep a && all_sep b.
Proof.
  induction a as [|c a IH]; simpl; [reflexivity|].
  now rewrite IH, andb_assoc.
Qed.

Lemma all_sep_has_sep (s : string) :
  all_sep s = true -> s = ""%string \/ has_sep s = true.
Proof.
  destruct s as [|c s]; [now left|].
  simpl. intros H. apply andb_prop in H as [Hc _]. right. now rewrite Hc.
Qed.

Lemma all_sep_endswith (s : string) :
  all_sep s = true -> s <> ""%string -> endswith_sep s = true.
Proof.
  induction s as [|c s IH]; [contradiction|].
  simpl. intros H _. apply andb_prop in H as [Hc Hs].
  destruct s; [exact Hc|]. apply IH; [exact Hs | discriminate].
Qed.

Lemma head_to_last_sep_append (a n : string) :
  PosixPath.head_to_last_sep (a ++ String sep n)
  = (a ++ String sep (PosixPath.head_to_last_sep n))%string.
Proof.
  induction a as [|c a IH].
  - simpl. reflexivity.
  - change (PosixPath.head_to_last_sep (String c a ++ String sep n))
      with (if has_sep (String c (a ++ String sep n))
            then String c (PosixPath.head_to_last_sep (a ++ String sep n))
            else ""%string).
    assert (E : has_sep (String c (a ++ String sep n)) = true).
    { simpl. rewrite has_sep_append. simpl. now rewrite !orb_true_r. }
    now rewrite E, IH.
Qed.

Lemma head_to_last_sep_none (n : string) :
  has_sep n = false -> PosixPath.head_to_last_sep n = ""%string.
Proof.
  destruct n as [|c n]; [reflexivity|]. intros H.
  change (PosixPath.head_to_last_sep (String c n))
    with (if has_sep (String c n)
          then String c (PosixPath.head_to_last_sep n) else ""%string).
  now rewrite H.
Qed.

Lemma rstrip_sep_append_sep (a : string) :
  rstrip_sep (a ++ String sep "") = rstrip_sep a.
Proof.
  induction a as [|c a IH]; [reflexivity|].
  change (rstrip_sep (String c a ++ String sep ""))
    with (if all_sep (String c (a ++ String sep ""))
          then ""%string else String c (rstrip_sep (a ++ String sep ""))).
  change (rstrip_sep (String c a))
    with (if all_sep (String c a) then ""%string else String c (rstrip_sep a)).
  assert (E : all_sep (String c (a ++ String sep "")) = all_sep (String c a)).
  { simpl. rewrite all_sep_append. simpl. now rewrite !andb_true_r. }
  now rewrite E, IH.
Qed.

Lemma rstrip_sep_id (a : string) :
  endswith_sep a = false -> rstrip_sep a = a.
Proof.
  induction a as [|c a IH]; [reflexivity|]. intros H.
  change (rstrip_sep (String c a))
    with (if all_sep (String c a) then ""%string else String c (rstrip_sep a)).
  destruct (all_sep (String c a)) eqn:E.
  - apply all_sep_endswith in E; [congruence | discriminate].
  - f_equal. destruct a as [|d a]; [reflexivity|]. now apply IH.
Qed.

(** [os.path.dirname] of a directory and a name without separator, glued
    by one or two separators, is the directory. *)
Lemma dirname_of_child (a glue n : string) :
  all_sep a = false -> endswith_sep a = false -> has_sep n = false ->
  glue = "/"%string \/ glue = "//"%string ->
  PosixPath.dirname (a ++ glue ++ n) = a.
Proof.
  intros Ha He Hn Hg. unfold PosixPath.dirname.
  assert (Hhead : PosixPath.head_to_last_sep (a ++ glue ++ n)
                  = (a ++ glue)%string).
  { destruct Hg as [-> | ->].
    - change (a ++ "/" ++ n)%string with (a ++ String sep n)%string.
      rewrite head_to_last_sep_append, head_to_last_sep_none by exact Hn.
      reflexivity.
    - change (a ++ "//" ++ n)%string
        with (a ++ String sep (String sep n))%string.
      rewrite head_to_last_sep_append.
      change (String sep n) with (("" ++ String sep n)%string).
      rewrite head_to_last_sep_append, head_to_last_sep_none by exact Hn.
      reflexivity. }
  rewrite Hhead.
  assert (Hne : ((a ++ glue) =? "")%string = false).
  { apply eqb_empty_append. destruct Hg as [-> | ->]; discriminate. }
  rewrite Hne, all_sep_append, Ha. simpl.
  destruct Hg as [-> | ->].
  - change (a ++ "/")%string with (a ++ String sep "")%string.
    rewrite rstrip_sep_append_sep. now apply rstrip_sep_id.
  - change (a ++ "//")%string with (a ++ (String sep "" ++ String sep ""))%string.
    rewrite <- append_assoc, !rstrip_sep_append_sep. now apply rstrip_sep_id.
Qed.

Lemma plain_not_all_sep (s : string) : plain_name s = true -> all_sep s = false.
Proof.
  intros H. apply plain_name_inv in H as (He & Hs & _).
  destruct (all_sep s) eqn:E; [|reflexivity].
  apply all_sep_has_sep in E as [E|E]; congruence.
Qed.

Lemma join_with_tail (names : list string) :
  forallb plain_name names = true -> names <> [] ->
  endswith_sep (join_with "//" names) = false
  /\ all_sep (join_with "//" names) = false.
Proof.
  induction names as [|n names IH]; [contradiction|]. intros H _.
  simpl in H. apply andb_prop in H as [Hn Hr].
  pose proof (plain_name_inv _ Hn) as (He & Hs & _).
  destruct names as [|m names].
  - split; [now apply endswith_sep_no_sep | now apply plain_not_all_sep].
  - change (join_with "//" (n :: m :: names))
      with (n ++ "//" ++ join_with "//" (m :: names))%string.
    destruct (IH Hr) as [IH1 IH2]; [discriminate|].
    destruct (join_with_head (m :: names) Hr) as [Hne _]; [discriminate|].
    split.
    + rewrite endswith_sep_append.
      * rewrite endswith_sep_append by exact Hne. exact IH1.
      * discriminate.
    + rewrite all_sep_append, (plain_not_all_sep n Hn). reflexivity.
Qed.

(** The parent directory [download_file] creates for a file (line 39) is
    the local directory the walker made for the directory holding it
    (line 96), or the share directory (line 72) for a file at the root of
    the share, when the names on the way are plain. *)
Theorem download_parent_is_walked_directory
    (host share : string) (ds : list string) (d n : string) :
  plain_name share = true ->
  forallb entry_name_ok ((ds ++ [d]) ++ [n]) = true ->
  PosixPath.dirname (entity_local_path host share [] d)
  = share_directory host share
  /\ PosixPath.dirname (entity_local_path host share (ds ++ [d]) n)
     = entity_local_path host share ds d.
Proof.
  intros Hs Hall.
  assert (Hds : forallb entry_name_ok (ds ++ [d]) = true).
  { rewrite forallb_app in Hall. now apply andb_prop in Hall as [H _]. }
  assert (Hd : forallb entry_name_ok ([] ++ [d]) = true).
  { rewrite forallb_app in Hds. now apply andb_prop in Hds as [_ H]. }
  assert (Hplain : forall l, forallb entry_name_ok l = true ->
                             forallb plain_name l = true).
  { intros l. apply forallb_weaken. intros x Hx.
    now apply entry_name_ok_inv in Hx. }
  destruct (share_directory_plain host share Hs) as (Esd & Epre & Hne).
  pose proof (plain_name_inv _ Hs) as (Hse & Hss & _).
  assert (Hsd_end : endswith_sep (share_directory host share) = false).
  { rewrite Esd, endswith_sep_append by exact Hse.
    now apply endswith_sep_no_sep. }
  assert (Hsd_all : all_sep (share_directory host share) = false).
  { rewrite Esd, all_sep_append, (plain_not_all_sep share Hs).
    apply andb_false_r. }
  split.
  - rewrite (entity_local_path_plain host share [] d Hs Hd). simpl app.
    simpl join_with.
    apply dirname_of_child; auto.
    simpl in Hd. rewrite andb_true_r in Hd.
    apply entry_name_ok_inv in Hd as [Hd _].
    now apply plain_name_inv in Hd as (_ & H & _).
  - rewrite (entity_local_path_plain host share (ds ++ [d]) n Hs Hall).
    rewrite (entity_local_path_plain host share ds d Hs Hds).
    rewrite join_with_snoc by (destruct ds; discriminate).
    rewrite <- !append_assoc.
    destruct (join_with_tail (ds ++ [d]) (Hplain _ Hds)) as [Ht1 Ht2].
    { destruct ds; discriminate. }
    destruct (join_with_head (ds ++ [d]) (Hplain _ Hds)) as [Hjne _].
    { destruct ds; discriminate. }
    rewrite (append_assoc (share_directory host share) "/"
               (join_with "//" (ds ++ [d]))).
    rewrite !append_assoc.
    change (share_directory host share ++ "/" ++ join_with "//" (ds ++ [d])
            ++ "//" ++ n)%string
      with (share_directory host share
            ++ ("/" ++ join_with "//" (ds ++ [d])) ++ "//" ++ n)%string.
    rewrite <- (append_assoc (share_directory host share)
                  ("/" ++ join_with "//" (ds ++ [d])) ("//" ++ n)).
    apply dirname_of_child; auto.
    + rewrite all_sep_append, Hsd_all. reflexivity.
    + rewrite endswith_sep_append.
      * change ("/" ++ join_with "//" (ds ++ [d]))%string
          with (String sep "" ++ join_with "//" (ds ++ [d]))%string.
        now rewrite endswith_sep_append.
      * discriminate.
    + rewrite forallb_app in Hall. apply andb_prop in Hall as [_ Hn].
      simpl in Hn. rewrite andb_true_r in Hn.
      apply entry_name_ok_inv in Hn as [Hn _].
      now apply plain_name_inv in Hn as (_ & H & _).
Qed.

(** A name that starts with a separator makes [os.path.join] drop what
    comes before it, twice: the remote path and the local path are both the
    name itself with its backslashes replaced, an absolute path that does
    not pass through [output].  At the root of a share a leading backslash
    does the same, since it is replaced before line 92 strips it. *)
Theorem leading_separator_drops_the_output_root
    (base rp : string) (f : SharedFile) :
  startswith_sep (get_longname f) = true
  \/ (rp = ""%string
      /\ startswith_sep (replace_backslash (get_longname f)) = true) ->
  entry_remote rp f = replace_backslash (get_longname f)
  /\ entry_local base rp f = replace_backslash (get_longname f)
  /\ startswith_sep (entry_local base rp f) = true.
Proof.
  intros H.
  assert (Hfull : entry_remote rp f = replace_backslash (get_longname f)
                  /\ startswith_sep (replace_backslash (get_longname f)) = true).
  { unfold entry_remote, full_remote_path. destruct H as [H | [-> H]].
    - rewrite join_absolute by exact H. split; [reflexivity|].
      destruct (get_longname f) as [|c s]; [discriminate|].
      simpl in *. apply Ascii.eqb_eq in H. subst c. reflexivity.
    - split; [|exact H].
      unfold PosixPath.join. simpl.
      now destruct (startswith_sep (get_longname f)). }
  destruct Hfull as [E Hs].
  assert (El : entry_local base rp f = replace_backslash (get_longname f)).
  { unfold entry_local, local_path. rewrite E, lstrip_after_replace.
    now apply join_absolute. }
  now rewrite El.
Qed.

End LocalDirectories.

(** ** Downloads *)

Section Downloads.

Variable w : World.

Lemma written_writes (local : string) (chunks : list (list byte)) :
  written local (map (EvWrite local) chunks) = chunks.
Proof.
  induction chunks as [|ch chunks IH]; [reflexivity|].
  unfold written in *. simpl. rewrite String.eqb_refl. simpl. now rewrite IH.
Qed.

Lemma downloads_writes (local : string) (chunks : list (list byte)) :
  downloads (map (EvWrite local) chunks) = [].
Proof. induction chunks; simpl; auto. Qed.

(** When the three calls of a download succeed, the trace is the creation
    of the parent directory, the opening of the file, the transfer, the
    chunks written and the success line; the chunks written to the local
    file are those the server delivered, in order and unchanged. *)
Theorem download_writes_the_chunks_delivered
    (c : SMBConnection) (share remote local : string)
    (chunks : list (list byte)) (h : history) :
  os_makedirs w h (PosixPath.dirname local) = Ok tt ->
  os_open_wb w (h ++ [EvMakedirs (PosixPath.dirname local) (Ok tt)]) local = Ok tt ->
  smb_getFile w
    (h ++ [EvMakedirs (PosixPath.dirname local) (Ok tt); EvOpen local (Ok tt)])
    (remote_host c) share remote = (chunks, Ok tt) ->
  download_file w c share remote local h
  = (Done tt, download_trace c share remote local chunks)
  /\ written local (snd (download_file w c share remote local h)) = chunks
  /\ downloads (snd (download_file w c share remote local h)) = [(remote, local)].
Proof.
  intros Hm Ho Hg.
  assert (E : download_file w c share remote local h
              = (Done tt, download_trace c share remote local chunks)).
  { unfold download_file, try_except, bind, makedirs, open_wb, getFile, call,
      print, emit.
    rewrite Hm, Ho. rewrite <- app_assoc. simpl app. rewrite Hg. simpl.
    unfold download_trace. simpl. reflexivity. }
  rewrite E. split; [reflexivity|]. simpl snd. unfold download_trace. split.
  - unfold written. rewrite !flat_map_app. simpl.
    fold (written local (map (EvWrite local) chunks)).
    now rewrite written_writes, app_nil_r.
  - unfold downloads. rewrite !flat_map_app. simpl.
    fold (downloads (map (EvWrite local) chunks)).
    now rewrite downloads_writes.
Qed.

(** A download always ends normally and goes one of four ways: the parent
    directory cannot be created, and the file is neither opened nor asked
    for; the file cannot be opened, and nothing is asked for; the transfer
    breaks, and what was delivered is written; or everything succeeds.
    Only the last prints the success line. *)
Theorem download_goes_one_of_four_ways
    (c : SMBConnection) (share remote local : string) (h : history) :
  fst (download_file w c share remote local h) = Done tt
  /\ download_shape c share remote local
       (snd (download_file w c share remote local h)).
Proof.
  split; [apply download_file_done|].
  unfold download_file, try_except, bind, makedirs, open_wb, getFile, call,
    print, emit.
  destruct (os_makedirs w h _) as [[]|e1]; [|apply MakedirsFailed].
  destruct (os_open_wb w _ _) as [[]|e2]; [|apply OpenFailed].
  destruct (smb_getFile w _ _ _ _) as [chunks [[]|e3]]; simpl.
  - apply (Transferred c share remote local chunks).
  - apply (TransferFailed c share remote local chunks e3).
Qed.

End Downloads.

(** ** Failures the walker does not catch *)

Section Uncaught.

Variable w : World.

Lemma real_entries_head (files : list SharedFile) (f : SharedFile)
    (rest : list SharedFile) :
  real_entries files = f :: rest -> is_dot (get_longname f) = false.
Proof.
  intros E.
  assert (Hin : In f (real_entries files)) by (rewrite E; now left).
  unfold real_entries in Hin. apply filter_In in Hin as [_ H].
  now apply negb_true_iff in H.
Qed.

(** When the local directory for a listed directory cannot be created
    (line 96), the exception leaves [spider_files]: the directory is not
    entered and the entries after it are neither listed nor downloaded. *)
Theorem local_directory_failure_leaves_the_walk
    (fuel : nat) (c : SMBConnection) (share rp base : string)
    (files : list SharedFile) (f : SharedFile) (rest : list SharedFile)
    (h : history) (e : exn) :
  smb_listPath w h (remote_host c) share (rp ++ "*") = Ok files ->
  real_entries files = f :: rest ->
  is_directory f = true ->
  os_makedirs w
    (h ++ [EvListPath (remote_host c) share (rp ++ "*") (Ok files)])
    (entry_local base rp f) = Err e ->
  spider_files w (S fuel) c share rp base h
  = (Raised e,
     [EvListPath (remote_host c) share (rp ++ "*") (Ok files);
      EvMakedirs (entry_local base rp f) (Err e)]).
Proof.
  intros Hls Hreal Hdir Hmk.
  pose proof (real_entries_head files f rest Hreal) as Hdot.
  change (spider_files w (S fuel) c share rp base)
    with (bind (list_files w c share rp)
            (fun files => for_each files (walk_body w fuel c share rp base))).
  destruct (list_files_cases w c share rp h)
    as [(files' & Hok & E) | (e' & Herr & _)]; [|congruence].
  rewrite Hls in Hok. injection Hok as <-.
  rewrite (bind_done _ _ _ _ _ E).
  rewrite (for_each_real_entries (walk_body w fuel c share rp base) files)
    by (intros f' h' Hf'; now apply spider_entry_dot).
  rewrite Hreal, for_each_cons.
  assert (Eb : walk_body w fuel c share rp base f
                 (h ++ [EvListPath (remote_host c) share (rp ++ "*") (Ok files)])
               = (Raised e, [EvMakedirs (entry_local base rp f) (Err e)])).
  { unfold walk_body, spider_entry. rewrite Hdot, Hdir.
    fold (entry_remote rp f). fold (entry_local base rp f).
    unfold bind, makedirs, call. now rewrite Hmk. }
  rewrite (bind_raised _ _ _ _ _ Eb). reflexivity.
Qed.

(** An exception raised inside the walk of a directory is not caught on the
    way up: the loop over the parent listing ends with it, and the entries
    after that directory are skipped. *)
Theorem exception_in_a_directory_skips_its_siblings
    (fuel : nat) (c : SMBConnection) (share rp base : string)
    (f : SharedFile) (rest : list SharedFile) (h : history) (e : exn) :
  is_dot (get_longname f) = false ->
  is_directory f = true ->
  os_makedirs w h (entry_local base rp f) = Ok tt ->
  fst (spider_files w fuel c share (entry_remote rp f ++ "\") base
         (h ++ [EvMakedirs (entry_local base rp f) (Ok tt)])) = Raised e ->
  for_each (f :: rest) (walk_body w fuel c share rp base) h
  = (Raised e,
     EvMakedirs (entry_local base rp f) (Ok tt)
     :: snd (spider_files w fuel c share (entry_remote rp f ++ "\") base
               (h ++ [EvMakedirs (entry_local base rp f) (Ok tt)]))).
Proof.
  intros Hdot Hdir Hmk Hsub.
  rewrite for_each_cons.
  apply bind_raised.
  unfold walk_body, spider_entry. rewrite Hdot, Hdir.
  fold (entry_remote rp f). fold (entry_local base rp f).
  unfold bind, makedirs, call. rewrite Hmk.
  destruct (spider_files w fuel c share (entry_remote rp f ++ "\") base _)
    as [o t].
  simpl in Hsub. now subst o.
Qed.

(** The walk of a share makes no other call on the connection than
    [listPath] and [getFile], both on that share; beside them it only
    creates directories, opens and writes files, and prints listing
    failures and download reports.  It never connects, logs in, lists
    shares or logs off. *)
Theorem walk_only_lists_and_reads
    (fuel : nat) (c : SMBConnection) (share rp base : string) (h : history) :
  Forall (fun ev => walker_event c share ev = true)
         (snd (spider_files w fuel c share rp base h)).
Proof.
  apply (emits_spider_files w (fun ev => walker_event c share ev = true)
           fuel c share (fun ev H => H) rp base h).
Qed.

End Uncaught.

(** ** What a walk mirrors *)

Section Mirror.

Variable w : World.
Hypothesis local_ok : transfers_ok w.

Lemma downloads_app (a b : list event) :
  downloads (a ++ b) = downloads a ++ downloads b.
Proof. apply flat_map_app. Qed.

Lemma download_file_ok (c : SMBConnection) (share remote local : string)
    (h : history) :
  fst (download_file w c share remote local h) = Done tt
  /\ downloads (snd (download_file w c share remote local h)) = [(remote, local)].
Proof.
  destruct local_ok as (Hm & Ho & Hg).
  pose proof (Hg (h ++ [EvMakedirs (PosixPath.dirname local) (Ok tt);
                        EvOpen local (Ok tt)])
                (remote_host c) share remote) as Hg'.
  destruct (smb_getFile w
              (h ++ [EvMakedirs (PosixPath.dirname local) (Ok tt);
                     EvOpen local (Ok tt)])
              (remote_host c) share remote) as [chunks r] eqn:Eg.
  simpl in Hg'. subst r.
  destruct (download_writes_the_chunks_delivered w c share remote local chunks h
              (Hm _ _) (Ho _ _) Eg) as (E & _ & Hd).
  rewrite E in *. auto.
Qed.

Lemma serves_node_dir (host share rp s : string) (kids : list remote_node) :
  serves_node w host share rp (RDir s kids) ->
  is_dot s = false /\ serves_dir w host share (child_remote_path rp s) kids.
Proof.
  simpl. intros (Hdot & Hl & Hall). split; [exact Hdot|]. split; [exact Hl|].
  clear Hl. induction kids as [|k kids IH]; constructor.
  - destruct Hall as [H _]. exact H.
  - apply IH. destruct Hall as [_ H]. exact H.
Qed.

Lemma forest_height_cons (k : remote_node) (kids : list remote_node) :
  forest_height (k :: kids) = Nat.max (height k) (forest_height kids).
Proof. reflexivity. Qed.

Lemma height_dir (s : string) (kids : list remote_node) :
  height (RDir s kids) = S (forest_height kids).
Proof. reflexivity. Qed.

Lemma mirror_walk (c : SMBConnection) (share base : string) (fuel : nat) :
  forall rp kids h,
    serves_dir w (remote_host c) share rp kids ->
    forest_height kids < fuel ->
    fst (spider_files w fuel c share rp base h) = Done tt
    /\ downloads (snd (spider_files w fuel c share rp base h))
       = flat_map (mirrored base rp) kids.
Proof.
  induction fuel as [|fuel IHfuel]; intros rp kids h [Hl Hall] Hlt; [lia|].
  change (spider_files w (S fuel) c share rp base)
    with (bind (list_files w c share rp)
            (fun files => for_each files (walk_body w fuel c share rp base))).
  destruct (Hl h) as (files & Hok & Hreal).
  destruct (list_files_cases w c share rp h)
    as [(files' & Hok' & E) | (e' & Herr & _)]; [|congruence].
  rewrite Hok in Hok'. injection Hok' as <-.
  rewrite (bind_done _ _ _ _ _ E).
  rewrite (for_each_real_entries (walk_body w fuel c share rp base) files)
    by (intros f' h' Hf'; now apply spider_entry_dot).
  rewrite Hreal. cbn [fst snd]. rewrite downloads_app. cbn [downloads flat_map app].
  set (h1 := h ++ _). clearbody h1. clear E Hok Hreal Hl files h.
  revert h1. induction kids as [|k kids IHkids]; intros h1.
  - split; reflexivity.
  - inversion Hall as [|? ? Hk Hkids]; subst.
    rewrite forest_height_cons in Hlt.
    assert (Hbody : fst (walk_body w fuel c share rp base (node_entry k) h1)
                    = Done tt
                    /\ downloads (snd (walk_body w fuel c share rp base
                                         (node_entry k) h1))
                       = mirrored base rp k).
    { unfold walk_body, spider_entry.
      destruct k as [s | s kids'].
      - destruct Hk as [Hdot _]. simpl in Hdot.
        change (get_longname (node_entry (RFile s))) with s.
        change (is_directory (node_entry (RFile s))) with false.
        rewrite Hdot. apply download_file_ok.
      - apply serves_node_dir in Hk as [Hdot Hsub].
        change (get_longname (node_entry (RDir s kids'))) with s.
        change (is_directory (node_entry (RDir s kids'))) with true.
        rewrite Hdot.
        destruct local_ok as (Hm & _ & _).
        unfold bind, makedirs, call. rewrite Hm.
        rewrite height_dir in Hlt.
        destruct (IHfuel (child_remote_path rp s) kids'
                    (h1 ++ [EvMakedirs
                              (local_path base (full_remote_path rp s)) (Ok tt)])
                    Hsub) as [Ho Hd]; [lia|].
        unfold child_remote_path in Ho, Hd.
        destruct (spider_files w fuel c share (full_remote_path rp s ++ "\") base _)
          as [o t].
        simpl in *. subst o. split; [reflexivity | exact Hd]. }
    destruct Hbody as [Ho Hd].
    simpl map. rewrite for_each_cons. unfold bind.
    destruct (walk_body w fuel c share rp base (node_entry k) h1) as [o t1].
    simpl in Ho, Hd. subst o.
    destruct (IHkids Hkids) with (h1 := h1 ++ t1) as [Ho2 Hd2]; [lia|].
    destruct (for_each (map node_entry kids) _ (h1 ++ t1)) as [o2 t2].
    simpl in *. subst o2. split; [reflexivity|].
    now rewrite downloads_app, Hd, Hd2.
Qed.

End Mirror.

(** On a server that shows a finite tree, with a local file system that
    never refuses and transfers that complete, the walk of a share ends
    normally once the call nesting allowed exceeds the height of the tree,
    and the downloads it announces are exactly the files of the tree, each
    once, in the order of the tree with a directory's content before its
    later siblings, each read from the remote path and written to the local
    path the walker computes for it. *)
Theorem walk_mirrors_the_tree
    (w : World) (fuel : nat) (c : SMBConnection) (share rp base : string)
    (kids : list remote_node) (h : history) :
  transfers_ok w ->
  serves_dir w (remote_host c) share rp kids ->
  forest_height kids < fuel ->
  fst (spider_files w fuel c share rp base h) = Done tt
  /\ downloads (snd (spider_files w fuel c share rp base h))
     = flat_map (mirrored base rp) kids.
Proof.
  intros Hok Hs Hlt. now apply mirror_walk.
Qed.

(** ** Triples that go wrong, and the end of a session *)

Section Triples.

Variable w : World.

(** When the host cannot be reached, the triple leaves four events: the
    announcement, the entry, the failed connection and the error line.  No
    login is attempted, so the credentials are not sent; nothing is created
    locally; and the sweep goes on with the next triple.  The hypothesis is
    the answer of the world at the moment of the connection. *)
Theorem connection_failure_skips_triple
    (fuel : nat) (host username password : string) (e : exn)
    (rest : list (list string)) (h : history) :
  smb_connect w (h ++ firstn 2 (unreachable_trace host username password e)) host
  = Err e ->
  try_triple w fuel [host; username; password] h
  = (Done tt, unreachable_trace host username password e)
  /\ filter is_remote_call (unreachable_trace host username password e)
     = [EvConnect host (Err e)]
  /\ filter is_local_write (unreachable_trace host username password e) = []
  /\ for_each ([host; username; password] :: rest) (try_triple w fuel) h
     = (fst (for_each rest (try_triple w fuel)
               (h ++ unreachable_trace host username password e)),
        unreachable_trace host username password e
        ++ snd (for_each rest (try_triple w fuel)
                  (h ++ unreachable_trace host username password e))).
Proof.
  intros Hc. simpl in Hc.
  assert (E : try_triple w fuel [host; username; password] h
              = (Done tt, unreachable_trace host username password e)).
  { unfold try_triple, spider_smb_shares, SMBConnection_new, print, emit,
      call, bind, try_except.
    repeat rewrite <- app_assoc. simpl. rewrite Hc. reflexivity. }
  split; [exact E|]. split; [reflexivity|]. split; [reflexivity|].
  now apply for_each_cons_done.
Qed.

(** When the local directory of a share cannot be created (line 72), the
    exception reaches the handler of [spider_smb_shares]: the shares after
    it are not walked, the failure is printed as a connection error, and
    the session is not logged off.  The hypotheses are the answers of the
    world at the moment of each call. *)
Theorem share_directory_failure_ends_the_triple
    (fuel : nat) (host username password : string)
    (info : ShareInfo) (infos : list ShareInfo) (h : history) (e : exn) :
  smb_connect w
    (h ++ firstn 1 (session_opening host username password (info :: infos))) host
  = Ok tt ->
  smb_login w
    (h ++ firstn 2 (session_opening host username password (info :: infos)))
    host username password = Ok tt ->
  smb_listShares w
    (h ++ firstn 3 (session_opening host username password (info :: infos)))
    host = Ok (info :: infos) ->
  os_makedirs w (h ++ session_opening host username password (info :: infos))
    (host_directory host) = Ok tt ->
  os_makedirs w
    (h ++ session_opening host username password (info :: infos)
       ++ [EvMakedirs (host_directory host) (Ok tt);
           EvPrint (MsgListingFiles (strip_last (shi1_netname info)) host)])
    (share_directory host (strip_last (shi1_netname info))) = Err e ->
  spider_smb_shares w fuel host username password h
  = (Done tt,
     session_opening host username password (info :: infos)
     ++ [EvMakedirs (host_directory host) (Ok tt);
         EvPrint (MsgListingFiles (strip_last (shi1_netname info)) host);
         EvMakedirs (share_directory host (strip_last (shi1_netname info)))
           (Err e);
         EvPrint (MsgErrorConnecting host username e)]).
Proof.
  intros Hc Hl Hs Hm1 Hm2.
  rewrite (spider_smb_shares_opening w fuel host username password
             (info :: infos) h Hc Hl Hs).
  assert (Hm2' : os_makedirs w
                   (((h ++ session_opening host username password (info :: infos))
                     ++ [EvMakedirs (host_directory host) (Ok tt)])
                    ++ [EvPrint (MsgListingFiles
                                   (strip_last (shi1_netname info)) host)])
                   (share_directory host (strip_last (shi1_netname info)))
                 = Err e).
  { rewrite <- !app_assoc. exact Hm2. }
  set (h4 := h ++ session_opening host username password (info :: infos)) in *.
  assert (E : try_except
                (spider_listed_shares w fuel (conn host) host username
                   (stripped_names (info :: infos)))
                (fun e0 => print (MsgErrorConnecting host username e0)) h4
              = (Done tt,
                 [EvMakedirs (host_directory host) (Ok tt);
                  EvPrint (MsgListingFiles (strip_last (shi1_netname info)) host);
                  EvMakedirs
                    (share_directory host (strip_last (shi1_netname info)))
                    (Err e);
                  EvPrint (MsgErrorConnecting host username e)])).
  { assert (Es : spider_share w fuel (conn host) host (host_directory host)
                   (strip_last (shi1_netname info))
                   (h4 ++ [EvMakedirs (host_directory host) (Ok tt)])
                 = (Raised e,
                    [EvPrint (MsgListingFiles (strip_last (shi1_netname info))
                                host);
                     EvMakedirs
                       (share_directory host (strip_last (shi1_netname info)))
                       (Err e)])).
    { unfold spider_share, bind, print, emit, makedirs, call.
      fold (share_directory host (strip_last (shi1_netname info))).
      now rewrite Hm2'. }
    apply try_except_raised with (e := e)
      (t1 := [EvMakedirs (host_directory host) (Ok tt);
              EvPrint (MsgListingFiles (strip_last (shi1_netname info)) host);
              EvMakedirs
                (share_directory host (strip_last (shi1_netname info)))
                (Err e)]).
    unfold spider_listed_shares.
    change (stripped_names (info :: infos))
      with (strip_last (shi1_netname info) :: stripped_names infos).
    cbv iota. fold (host_directory host).
    rewrite (bind_done (makedirs w (host_directory host)) _ h4 tt
               [EvMakedirs (host_directory host) (Ok tt)])
      by (unfold makedirs, call; now rewrite Hm1).
    rewrite (bind_raised _ _ _ e
               [EvPrint (MsgListingFiles (strip_last (shi1_netname info)) host);
                EvMakedirs
                  (share_directory host (strip_last (shi1_netname info)))
                  (Err e)]).
    - reflexivity.
    - rewrite for_each_cons. now apply bind_raised. }
  rewrite E. reflexivity.
Qed.

Lemma filter_logoff_none (tr : list event) :
  Forall (fun ev => is_logoff ev = false) tr -> filter is_logoff tr = [].
Proof.
  induction 1 as [|ev tr Hev _ IH]; [reflexivity|]. simpl. now rewrite Hev.
Qed.

Lemma one_session_end_quiet (host username : string) (tr : list event) :
  filter is_logoff tr = [] -> one_session_end host username tr.
Proof.
  intros H. exists tr, []. rewrite app_nil_r. repeat split; auto. now left.
Qed.

Lemma one_session_end_app (host username : string) (a tr : list event) :
  filter is_logoff a = [] ->
  one_session_end host username tr -> one_session_end host username (a ++ tr).
Proof.
  intros Ha (pre & post & -> & Hpre & Hend).
  exists (a ++ pre), post. rewrite app_assoc. repeat split; auto.
  now rewrite filter_app, Ha, Hpre.
Qed.

Lemma walker_event_no_logoff (c : SMBConnection) (share : string) (ev : event) :
  walker_event c share ev = true -> is_logoff ev = false.
Proof. destruct ev; simpl; auto; discriminate. Qed.

Lemma list_shares_cases (c : SMBConnection) (h : history) :
  (exists infos,
      smb_listShares w h (remote_host c) = Ok infos /\
      list_shares w c h
      = (Done (stripped_names infos), [EvListShares (remote_host c) (Ok infos)]))
  \/
  (exists e,
      smb_listShares w h (remote_host c) = Err e /\
      list_shares w c h
      = (Done [], [EvListShares (remote_host c) (Err e);
                   EvPrint (MsgErrorListingShares e)])).
Proof.
  unfold list_shares, try_except, bind, listShares, call, ret, print, emit.
  destruct (smb_listShares w h (remote_host c)) as [infos|e].
  - left. now exists infos.
  - right. now exists e.
Qed.

Lemma listed_shares_one_end (fuel : nat) (host username : string)
    (names : list string) (h : history) :
  one_session_end host username
    (snd (try_except
            (spider_listed_shares w fuel (conn host) host username names)
            (fun e => print (MsgErrorConnecting host username e)) h)).
Proof.
  unfold try_except, spider_listed_shares.
  destruct names as [|n names].
  { apply one_session_end_quiet. reflexivity. }
  unfold bind, makedirs, logoff, call, print, emit.
  destruct (os_makedirs w h (PosixPath.join "output" host)) as [[]|e].
  2:{ apply one_session_end_quiet. reflexivity. }
  assert (HL : emits (fun ev => is_logoff ev = false)
                 (for_each (n :: names)
                    (spider_share w fuel (conn host) host
                       (PosixPath.join "output" host)))).
  { apply emits_for_each. intros share.
    apply emits_spider_share; try reflexivity.
    apply walker_event_no_logoff. }
  specialize (HL (h ++ [EvMakedirs (PosixPath.join "output" host) (Ok tt)])).
  destruct (for_each (n :: names) _ _) as [o tl]. simpl snd in HL.
  apply filter_logoff_none in HL.
  destruct o as [[]|e|].
  - destruct (smb_logoff w _ (remote_host (conn host))) as [[]|e]; simpl snd.
    + exists (EvMakedirs (PosixPath.join "output" host) (Ok tt) :: tl),
        [EvLogoff host (Ok tt)].
      repeat split; auto. right. now left.
    + exists (EvMakedirs (PosixPath.join "output" host) (Ok tt) :: tl),
        [EvLogoff host (Err e); EvPrint (MsgErrorConnecting host username e)].
      repeat split.
      * simpl. now rewrite <- app_assoc.
      * exact HL.
      * right. right. now exists e.
  - simpl snd. apply one_session_end_quiet.
    simpl. rewrite filter_app, HL. reflexivity.
  - simpl snd. apply one_session_end_quiet. exact HL.
Qed.

(** Whatever the world answers, the trace of one triple holds at most one
    logoff, and nothing is asked of the server after it: the trace is a
    part without any logoff, followed by nothing, by the logoff, or by a
    logoff that raised and the line printed for it. *)
Theorem triple_logs_off_once_at_most
    (fuel : nat) (host username password : string) (h : history) :
  one_session_end host username
    (snd (spider_smb_shares w fuel host username password h)).
Proof.
  unfold spider_smb_shares.
  rewrite (bind_done (emit (EvAttempt host username password)) _ h tt
             [EvAttempt host username password] eq_refl).
  cbn [snd].
  apply one_session_end_app; [reflexivity|].
  set (h1 := h ++ [EvAttempt host username password]).
  destruct (smb_connect w h1 host) as [[]|e] eqn:Ec.
  2:{ rewrite (try_except_bind_raised (SMBConnection_new w host) _ _ _ e
                 [EvConnect host (Err e)])
        by (unfold SMBConnection_new, bind, call; now rewrite Ec).
      apply one_session_end_quiet. reflexivity. }
  rewrite (try_except_bind_done (SMBConnection_new w host) _ _ _ (conn host)
             [EvConnect host (Ok tt)])
    by (unfold SMBConnection_new, bind, call, ret; now rewrite Ec).
  cbn [snd]. apply one_session_end_app; [reflexivity|].
  set (h2 := h1 ++ [EvConnect host (Ok tt)]).
  destruct (smb_login w h2 host username password) as [[]|e] eqn:El.
  2:{ rewrite (try_except_bind_raised (login w (conn host) username password)
                 _ _ _ e [EvLogin host username password (Err e)])
        by (unfold login, call; simpl; now rewrite El).
      apply one_session_end_quiet. reflexivity. }
  rewrite (try_except_bind_done (login w (conn host) username password)
             _ _ _ tt [EvLogin host username password (Ok tt)])
    by (unfold login, call; simpl; now rewrite El).
  cbn [snd]. apply one_session_end_app; [reflexivity|].
  set (h3 := h2 ++ [EvLogin host username password (Ok tt)]).
  destruct (list_shares_cases (conn host) h3)
    as [(infos & _ & E) | (e & _ & E)];
    rewrite (try_except_bind_done (list_shares w (conn host)) _ _ _ _ _ E);
    cbn [snd]; (apply one_session_end_app; [reflexivity|]);
    apply listed_shares_one_end.
Qed.

Lemma flat_map_nothing {X} (tr : list event) :
  flat_map (fun _ : event => @nil X) tr = [].
Proof. induction tr; simpl; auto. Qed.

(** No exception leaves the sweep: whatever the servers and the local file
    system answer, [main] ends normally, unless a walk never ends. *)
Theorem sweep_never_raises
    (fuel : nat) (hosts usernames passwords : list string) (h : history) :
  fst (main w fuel hosts usernames passwords h) = Done tt
  \/ fst (main w fuel hosts usernames passwords h) = Diverged.
Proof.
  unfold main. rewrite product_three.
  destruct (sweep_in_order w (fun _ => @nil unit) (fun _ => []) fuel
              (fun host username password h' => flat_map_nothing _)
              (nested_triples hosts usernames passwords) h)
    as [[Ho _] | [Ho _]]; auto.
Qed.

Lemma flat_map_all_nil {X Y} (f : X -> list Y) (l : list X) :
  (forall x, f x = []) -> flat_map f l = [].
Proof.
  intros H. induction l as [|x l IH]; simpl; [reflexivity|]. now rewrite H, IH.
Qed.

Lemma nested_triples_empty (hosts usernames passwords : list string) :
  hosts = [] \/ usernames = [] \/ passwords = [] ->
  nested_triples hosts usernames passwords = [].
Proof.
  unfold nested_triples. intros [-> | [-> | ->]]; [reflexivity| |].
  - apply flat_map_all_nil. reflexivity.
  - apply flat_map_all_nil. intros x. apply flat_map_all_nil. reflexivity.
Qed.

(** When one of the three lists is empty, the sweep does nothing at all:
    no line is printed and no host is contacted. *)
Theorem empty_list_sweeps_nothing
    (fuel : nat) (hosts usernames passwords : list string) (h : history) :
  hosts = [] \/ usernames = [] \/ passwords = [] ->
  main w fuel hosts usernames passwords h = (Done tt, []).
Proof.
  intros H. unfold main.
  now rewrite product_three, (nested_triples_empty _ _ _ H).
Qed.

Lemma nested_triples_in (hosts usernames passwords : list string)
    (t : string * string * string) :
  In t (nested_triples hosts usernames passwords) ->
  In (fst (fst t)) hosts /\ In (snd (fst t)) usernames /\ In (snd t) passwords.
Proof.
  unfold nested_triples. intros H.
  apply in_flat_map in H as (x & Hx & H).
  apply in_flat_map in H as (u & Hu & H).
  apply in_map_iff in H as (p & <- & Hp). auto.
Qed.

(** Every triple the sweep of the three files enters is made of stripped
    lines: host, username and password have no whitespace at either end. *)
Theorem swept_triples_are_stripped
    (fuel : nat) (hf uf pf : list string) (h : history) :
  Forall trimmed_triple (attempts (snd (sweep_files w fuel hf uf pf h))).
Proof.
  unfold sweep_files.
  destruct (sweep_attempts_prefix w fuel (read_list hf) (read_list uf)
              (read_list pf) h) as [rest E].
  apply Forall_forall. intros t Ht.
  assert (Hin : In t (nested_triples (read_list hf) (read_list uf) (read_list pf))).
  { rewrite E. apply in_or_app. now left. }
  apply nested_triples_in in Hin as (H1 & H2 & H3).
  destruct (read_list_strips_every_line hf) as (T1 & _).
  destruct (read_list_strips_every_line uf) as (T2 & _).
  destruct (read_list_strips_every_line pf) as (T3 & _).
  rewrite Forall_forall in T1, T2, T3.
  unfold trimmed_triple. auto.
Qed.

(** No line of the input files is dropped: when the sweep of the three
    files reaches its end, it has entered as many triples as the product of
    the three numbers of lines, blank lines included. *)
Theorem blank_lines_are_swept_too
    (fuel : nat) (hf uf pf : list string) (h : history) :
  fst (sweep_files w fuel hf uf pf h) <> Diverged ->
  length (attempts (snd (sweep_files w fuel hf uf pf h)))
  = length hf * length uf * length pf.
Proof.
  unfold sweep_files, main. rewrite product_three. intros Hnd.
  destruct (sweep_in_order w
              (fun ev => match ev with
                         | EvAttempt a b c => [(a, b, c)]
                         | _ => []
                         end)
              (fun t => [t]) fuel (try_triple_attempts w fuel)
              (nested_triples (read_list hf) (read_list uf) (read_list pf)) h)
    as [[_ Ha] | [Ho _]]; [|contradiction].
  rewrite flat_map_singleton in Ha.
  unfold attempts. rewrite Ha, length_nested_triples.
  unfold read_list. now rewrite !length_map.
Qed.

End Triples.

(** ** Concrete runs for the further properties *)

Lemma scenario_transfers_ok : transfers_ok scenario_world.
Proof. repeat split. Qed.

Lemma scenario_serves_tree :
  serves_dir scenario_world "10.0.0.5" "public" "" scenario_tree.
Proof.
  split.
  - intros h. exists [dir "."; dir ".."; dir "docs"; file "readme.txt"].
    split; reflexivity.
  - repeat constructor.
    intros h. exists [dir "."; dir ".."; file "a.txt"]. split; reflexivity.
Qed.

Lemma walk_mirrors_the_tree_witness :
  transfers_ok scenario_world
  /\ serves_dir scenario_world "10.0.0.5" "public" "" scenario_tree
  /\ forest_height scenario_tree < 2
  /\ downloads (snd (spider_files scenario_world 2 (conn "10.0.0.5") "public" ""
                       "output/10.0.0.5/public" []))
     = [("docs//a.txt", "output/10.0.0.5/public/docs//a.txt");
        ("readme.txt", "output/10.0.0.5/public/readme.txt")]%string.
Proof.
  split; [exact scenario_transfers_ok|].
  split; [exact scenario_serves_tree|].
  split; [vm_compute; lia|].
  apply (walk_mirrors_the_tree scenario_world 2 (conn "10.0.0.5") "public" ""
           "output/10.0.0.5/public" scenario_tree []
           scenario_transfers_ok scenario_serves_tree).
  vm_compute. lia.
Defined.

Lemma download_parent_is_walked_directory_witness :
  PosixPath.dirname (entity_local_path "10.0.0.5" "public" ["docs"] "a.txt")
  = entity_local_path "10.0.0.5" "public" [] "docs".
Proof.
  apply (download_parent_is_walked_directory "10.0.0.5" "public" [] "docs" "a.txt");
    reflexivity.
Defined.

Lemma leading_separator_drops_the_output_root_witness :
  entry_local "output/10.0.0.5/public" "" (file "\tmp\owned")
  = "/tmp/owned"%string.
Proof.
  apply (leading_separator_drops_the_output_root "output/10.0.0.5/public" ""
           (file "\tmp\owned")).
  right. split; reflexivity.
Defined.

Lemma download_writes_the_chunks_delivered_witness :
  written "output/10.0.0.5/public/readme.txt"
    (snd (download_file scenario_world (conn "10.0.0.5") "public" "readme.txt"
            "output/10.0.0.5/public/readme.txt" []))
  = [list_byte_of_string "readme.txt"].
Proof.
  apply (download_writes_the_chunks_delivered scenario_world (conn "10.0.0.5")
           "public" "readme.txt" "output/10.0.0.5/public/readme.txt"
           [list_byte_of_string "readme.txt"] []); reflexivity.
Defined.

Lemma local_directory_failure_leaves_the_walk_witness :
  fst (spider_files (mkdir_denied_world "output/10.0.0.5/public/docs") 2
         (conn "10.0.0.5") "public" "" "output/10.0.0.5/public" [])
  = Raised "PermissionError".
Proof.
  rewrite (local_directory_failure_leaves_the_walk
             (mkdir_denied_world "output/10.0.0.5/public/docs") 1
             (conn "10.0.0.5") "public" "" "output/10.0.0.5/public"
             [dir "."; dir ".."; dir "docs"; file "readme.txt"]
             (dir "docs") [file "readme.txt"] [] "PermissionError");
    reflexivity.
Defined.

Lemma exception_in_a_directory_skips_its_siblings_witness :
  fst (for_each [dir "a"; file "z"]
         (walk_body nested_denied_world 1 (conn "10.0.0.5") "public" ""
            "output/10.0.0.5/public") [])
  = Raised "PermissionError"
  /\ downloads (snd (for_each [dir "a"; file "z"]
                       (walk_body nested_denied_world 1 (conn "10.0.0.5")
                          "public" "" "output/10.0.0.5/public") []))
     = [].
Proof.
  rewrite (exception_in_a_directory_skips_its_siblings nested_denied_world 1
             (conn "10.0.0.5") "public" "" "output/10.0.0.5/public"
             (dir "a") [file "z"] [] "PermissionError");
    try reflexivity.
  split; reflexivity.
Defined.

Lemma connection_failure_skips_triple_witness :
  try_triple unreachable_world 2 ["10.0.0.5"; "guest"; ""] []
  = (Done tt, unreachable_trace "10.0.0.5" "guest" "" "Connection refused").
Proof.
  apply (connection_failure_skips_triple unreachable_world 2 "10.0.0.5" "guest" ""
           "Connection refused" [] []); reflexivity.
Defined.

Lemma share_directory_failure_ends_the_triple_witness :
  filter is_logoff
    (snd (spider_smb_shares (mkdir_denied_world "output/10.0.0.5/public") 2
            "10.0.0.5" "guest" "" []))
  = []
  /\ listed
       (snd (spider_smb_shares (mkdir_denied_world "output/10.0.0.5/public") 2
               "10.0.0.5" "guest" "" []))
     = [].
Proof.
  rewrite (share_directory_failure_ends_the_triple
             (mkdir_denied_world "output/10.0.0.5/public") 2
             "10.0.0.5" "guest" "" (netname "public") [netname "backup"] []
             "PermissionError"); try reflexivity.
  split; reflexivity.
Defined.

Lemma share_listing_failure_is_reported_witness :
  try_triple share_listing_fails_world 2 ["10.0.0.5"; "guest"; ""] []
  = (Done tt,
     share_listing_failed_trace "10.0.0.5" "guest" "" "STATUS_ACCESS_DENIED").
Proof.
  apply (share_listing_failure_is_reported share_listing_fails_world 2 "10.0.0.5"
           "guest" "" "STATUS_ACCESS_DENIED" []); reflexivity.
Defined.

Lemma empty_list_sweeps_nothing_witness :
  main scenario_world 2 ["10.0.0.5"] [] ["guest"] [] = (Done tt, []).
Proof.
  apply (empty_list_sweeps_nothing scenario_world 2 ["10.0.0.5"] [] ["guest"] []).
  right. left. reflexivity.
Defined.

Lemma blank_lines_are_swept_too_witness :
  attempts
    (snd (sweep_files scenario_world 2
            [(" 10.0.0.5" ++ nl)%string; nl] [("guest" ++ nl)%string] [nl] []))
  = [("10.0.0.5", "guest", ""); ("", "guest", "")]%string
  /\ length
       (attempts
          (snd (sweep_files scenario_world 2
                  [(" 10.0.0.5" ++ nl)%string; nl] [("guest" ++ nl)%string]
                  [nl] [])))
     = 2 * 1 * 1.
Proof.
  split; [reflexivity|].
  apply (blank_lines_are_swept_too scenario_world 2
           [(" 10.0.0.5" ++ nl)%string; nl] [("guest" ++ nl)%string] [nl] []).
  vm_compute. discriminate.
Defined.

(** ** A triple on which nothing fails *)

Section CleanTriple.

Variable w : World.

Lemma roaf_bind {A B} (m : M A) (k : A -> M B) :
  raises_only_after_failure m ->
  (forall a, raises_only_after_failure (k a)) ->
  raises_only_after_failure (bind m k).
Proof.
  intros Hm Hk h e. unfold bind.
  specialize (Hm h). destruct (m h) as [[a|e'|] t1]; simpl in *.
  - specialize (Hk a (h ++ t1) e).
    destruct (k a (h ++ t1)) as [o t2]. simpl in *.
    intros Ho. rewrite existsb_app, (Hk Ho). apply orb_true_r.
  - intros _. now apply (Hm e').
  - discriminate.
Qed.

Lemma roaf_call {A} (answer : history -> result A) (ev : result A -> event) :
  (forall e, failed_call (ev (Err e)) = true) ->
  raises_only_after_failure (call answer ev).
Proof.
  intros H h e. unfold call. destruct (answer h) as [a|e']; simpl.
  - discriminate.
  - intros _. now rewrite H.
Qed.

Lemma roaf_quiet {A} (m : M A) :
  (forall h, exists a, fst (m h) = Done a) -> raises_only_after_failure m.
Proof. intros H h e He. destruct (H h) as [a Ha]. congruence. Qed.

Lemma roaf_for_each {X} (xs : list X) (body : X -> M unit) :
  (forall x, raises_only_after_failure (body x)) ->
  raises_only_after_failure (for_each xs body).
Proof.
  intros H. induction xs as [|x xs IH].
  - apply roaf_quiet. intros h. now exists tt.
  - rewrite for_each_cons. apply roaf_bind; auto.
Qed.

Lemma roaf_spider_files (fuel : nat) (c : SMBConnection) (share base : string) :
  forall rp, raises_only_after_failure (spider_files w fuel c share rp base).
Proof.
  induction fuel as [|fuel IH]; intros rp.
  - intros h e He. discriminate He.
  - change (spider_files w (S fuel) c share rp base)
      with (bind (list_files w c share rp)
              (fun files => for_each files (walk_body w fuel c share rp base))).
    apply roaf_bind.
    + apply roaf_quiet. intros h.
      destruct (list_files_cases w c share rp h)
        as [(files & _ & ->) | (e & _ & ->)]; eexists; reflexivity.
    + intros files. apply roaf_for_each. intros f.
      unfold walk_body, spider_entry.
      destruct (is_dot (get_longname f)).
      { apply roaf_quiet. intros h. now exists tt. }
      destruct (is_directory f).
      * apply roaf_bind; [|intros _; apply IH].
        apply roaf_call. reflexivity.
      * apply roaf_quiet. intros h. exists tt. apply download_file_done.
Qed.

Lemma roaf_spider_share (fuel : nat) (c : SMBConnection)
    (host host_dir share : string) :
  raises_only_after_failure (spider_share w fuel c host host_dir share).
Proof.
  unfold spider_share.
  apply roaf_bind; [apply roaf_quiet; intros h; now exists tt|]. intros _.
  apply roaf_bind; [apply roaf_call; reflexivity|]. intros _.
  apply roaf_spider_files.
Qed.

Lemma listed_shares_clean_end (fuel : nat) (host username : string)
    (names : list string) (h : history) :
  existsb failed_call
    (snd (try_except
            (spider_listed_shares w fuel (conn host) host username names)
            (fun e => print (MsgErrorConnecting host username e)) h)) = false ->
  fst (try_except
         (spider_listed_shares w fuel (conn host) host username names)
         (fun e => print (MsgErrorConnecting host username e)) h) <> Diverged ->
  ~ In (EvPrint (MsgNoShares host username))
       (snd (try_except
               (spider_listed_shares w fuel (conn host) host username names)
               (fun e => print (MsgErrorConnecting host username e)) h)) ->
  exists pre,
    snd (try_except
           (spider_listed_shares w fuel (conn host) host username names)
           (fun e => print (MsgErrorConnecting host username e)) h)
    = pre ++ [EvLogoff host (Ok tt)]
    /\ filter is_logoff pre = [].
Proof.
  unfold try_except, spider_listed_shares.
  destruct names as [|n names].
  { simpl. intros _ _ H. exfalso. apply H. now left. }
  unfold bind, makedirs, logoff, call, print, emit.
  destruct (os_makedirs w h (PosixPath.join "output" host)) as [[]|e].
  2:{ simpl. discriminate. }
  assert (HL : emits (fun ev => is_logoff ev = false)
                 (for_each (n :: names)
                    (spider_share w fuel (conn host) host
                       (PosixPath.join "output" host)))).
  { apply emits_for_each. intros share.
    apply emits_spider_share; try reflexivity.
    apply walker_event_no_logoff. }
  specialize (HL (h ++ [EvMakedirs (PosixPath.join "output" host) (Ok tt)])).
  pose proof (roaf_for_each (n :: names)
                (spider_share w fuel (conn host) host
                   (PosixPath.join "output" host))
                (fun share => roaf_spider_share fuel (conn host) host
                                (PosixPath.join "output" host) share)
                (h ++ [EvMakedirs (PosixPath.join "output" host) (Ok tt)]))
    as HR.
  destruct (for_each (n :: names) _ _) as [o tl]. simpl fst in HR.
  simpl snd in HL, HR.
  apply filter_logoff_none in HL.
  destruct o as [[]|e|].
  - destruct (smb_logoff w _ _) as [[]|e]; simpl.
    + intros _ _ _.
      exists (EvMakedirs (PosixPath.join "output" host) (Ok tt) :: tl).
      split; [reflexivity | exact HL].
    + rewrite !existsb_app. simpl. rewrite !orb_true_r. discriminate.
  - simpl. rewrite existsb_app, (HR e eq_refl). discriminate.
  - simpl. intros _ H. now destruct H.
Qed.

(** When no call of a triple fails, no walk is endless and the host has at
    least one share, the session is logged off: the logoff is the last
    event of the triple and the only logoff in it. *)
Theorem clean_triple_ends_with_logoff
    (fuel : nat) (host username password : string) (h : history) :
  existsb failed_call (snd (spider_smb_shares w fuel host username password h))
  = false ->
  fst (spider_smb_shares w fuel host username password h) <> Diverged ->
  ~ In (EvPrint (MsgNoShares host username))
       (snd (spider_smb_shares w fuel host username password h)) ->
  exists pre,
    snd (spider_smb_shares w fuel host username password h)
    = pre ++ [EvLogoff host (Ok tt)]
    /\ filter is_logoff pre = [].
Proof.
  unfold spider_smb_shares.
  rewrite (bind_done (emit (EvAttempt host username password)) _ h tt
             [EvAttempt host username password] eq_refl).
  cbn [fst snd].
  set (h1 := h ++ [EvAttempt host username password]).
  destruct (smb_connect w h1 host) as [[]|e] eqn:Ec.
  2:{ rewrite (try_except_bind_raised (SMBConnection_new w host) _ _ _ e
                 [EvConnect host (Err e)])
        by (unfold SMBConnection_new, bind, call; now rewrite Ec).
      simpl. discriminate. }
  rewrite (try_except_bind_done (SMBConnection_new w host) _ _ _ (conn host)
             [EvConnect host (Ok tt)])
    by (unfold SMBConnection_new, bind, call, ret; now rewrite Ec).
  cbn [fst snd].
  set (h2 := h1 ++ [EvConnect host (Ok tt)]).
  destruct (smb_login w h2 host username password) as [[]|e] eqn:El.
  2:{ rewrite (try_except_bind_raised (login w (conn host) username password)
                 _ _ _ e [EvLogin host username password (Err e)])
        by (unfold login, call; simpl; now rewrite El).
      simpl. discriminate. }
  rewrite (try_except_bind_done (login w (conn host) username password)
             _ _ _ tt [EvLogin host username password (Ok tt)])
    by (unfold login, call; simpl; now rewrite El).
  cbn [fst snd].
  set (h3 := h2 ++ [EvLogin host username password (Ok tt)]).
  destruct (list_shares_cases w (conn host) h3)
    as [(infos & _ & E) | (e & _ & E)];
    rewrite (try_except_bind_done (list_shares w (conn host)) _ _ _ _ _ E);
    cbn [fst snd].
  2:{ simpl. discriminate. }
  intros Hf Hd Hn.
  destruct (listed_shares_clean_end fuel host username (stripped_names infos)
              (h3 ++ [EvListShares (remote_host (conn host)) (Ok infos)]))
    as (pre & Epre & Hpre).
  - simpl in Hf. exact Hf.
  - exact Hd.
  - intros Hin. apply Hn. simpl. auto.
  - rewrite Epre.
    exists (EvAttempt host username password
              :: EvConnect host (Ok tt)
              :: EvLogin host username password (Ok tt)
              :: EvListShares (remote_host (conn host)) (Ok infos) :: pre).
    split; [reflexivity|]. simpl. exact Hpre.
Qed.

End CleanTriple.

Lemma clean_triple_ends_with_logoff_witness :
  exists pre,
    snd (spider_smb_shares scenario_world 2 "10.0.0.5" "guest" "" [])
    = pre ++ [EvLogoff "10.0.0.5" (Ok tt)]
    /\ filter is_logoff pre = [].
Proof.
  apply (clean_triple_ends_with_logoff scenario_world 2 "10.0.0.5" "guest" "" []).
  - reflexivity.
  - vm_compute. discriminate.
  - vm_compute. intros H.
    repeat (destruct H as [H|H]; [discriminate H|]). exact H.
Defined.
